(** * klogproc: the tail worklog, the tail processor and two transformers

    A shallow embedding of the parts of klogproc that keep track of how far
    each log file has been read (package [tail], worklog.go), of the per-line
    handler of the tail processor, of the mapka3 [Preprocess] step and of the
    kontext018 input record, together with the properties the specification
    states about them.

    Go's [int64] values are integers of [Z]; none of the modelled functions
    does arithmetic on seek positions, only comparisons.  A Go map shared
    behind the concurrent map of cnc-gokit is a [gmap] threaded through the
    single goroutine that mutates it. *)

From Stdlib Require Import ZArith Bool List Ascii String.
From stdpp Require Import gmap strings list fin_maps.
Import ListNotations.

Local Open Scope Z_scope.

(** ** Package servicelog: the range of a log file *)

Module Servicelog.

(** Modelled from the spec: the declaration of [servicelog.LogRange] is not
    among the sources.  Its fields are the four that worklog.go reads and
    writes, and they are the spec's FileRange
    [{identity, seekStart, seekEnd, confirmed}]. *)
Record LogRange : Type := mkLogRange {
  Inode : Z;
  SeekStart : Z;
  SeekEnd : Z;
  Written : bool
}.

(** Go's zero value of the struct. *)
Definition zeroLogRange : LogRange := mkLogRange 0 0 0 false.

End Servicelog.

Import Servicelog.

(** ** The concurrent map of cnc-gokit, as far as the worklog uses it *)

Module Collections.

(** [Get] answers Go's zero value for a key that is not there. *)
Definition Get (m : gmap string LogRange) (k : string) : LogRange :=
  default zeroLogRange (m !! k).

Definition GetWithTest (m : gmap string LogRange) (k : string)
  : LogRange * bool :=
  match m !! k with
  | Some v => (v, true)
  | None => (zeroLogRange, false)
  end.

Definition Set_ (m : gmap string LogRange) (k : string) (v : LogRange)
  : gmap string LogRange :=
  <[k := v]> m.

End Collections.

(** ** Package tail: the worklog's ledger *)

Module Tail.

Import Collections.

Record updateRequest : Type := mkUpdateRequest {
  FilePath : string;
  Value : LogRange
}.

(** The condition guarding [w.rec.Set] in [goReadRequests]; in Go [&&]
    binds tighter than [||]. *)
Definition updateAccepted (curr req : LogRange) : bool :=
  negb (Inode curr =? Inode req)
  || (negb (Written curr) && (SeekStart curr >=? SeekStart req))
  || (Written curr && (SeekEnd req >=? SeekEnd curr))
  || (negb (Written req)
      && (Written curr || (SeekEnd req <? SeekEnd curr))).

(** One turn of the [select] loop on [case req := <-w.updRequests]. *)
Definition handleRequest (rec : gmap string LogRange) (req : updateRequest)
  : gmap string LogRange :=
  let curr := Get rec (FilePath req) in
  if updateAccepted curr (Value req)
  then Set_ rec (FilePath req) (Value req)
  else rec.

(** The loop of [goReadRequests] over the requests received, in arrival
    order, before the context is cancelled. *)
Definition goReadRequests (rec : gmap string LogRange)
    (reqs : list updateRequest) : gmap string LogRange :=
  fold_left handleRequest reqs rec.

(** [UpdateFileInfo] only sends on the channel: the request it enqueues. *)
Definition UpdateFileInfo (filePath : string) (logPosition : LogRange)
  : list updateRequest :=
  [mkUpdateRequest filePath logPosition].

(** [GetData] *)
Definition GetData (rec : gmap string LogRange) (filePath : string)
  : LogRange :=
  let '(v, ok) := GetWithTest rec filePath in
  if ok then v else mkLogRange (-1) 0 0 false.

(** *** The reconciliation rules as the specification words them *)

(** The five ordered rules of the specification's position ledger, read
    off its text: the answer is the range stored afterwards. *)
Definition reconcile (current candidate : LogRange) : LogRange :=
  if negb (Inode candidate =? Inode current) then candidate
  else if negb (Written current)
          && (SeekStart current >=? SeekStart candidate) then candidate
  else if Written current
          && (SeekEnd candidate >=? SeekEnd current) then candidate
  else if negb (Written candidate)
          && (Written current || (SeekEnd candidate <? SeekEnd current))
       then candidate
  else current.

(** The candidates a sequence of requests carries for one path. *)
Definition candidatesFor (path : string) (reqs : list updateRequest)
  : list LogRange :=
  Value <$> filter (fun r => FilePath r = path) reqs.

(** The stored range the rules predict, candidates taken in order. *)
Definition predicted (current : LogRange) (cands : list LogRange)
  : LogRange :=
  fold_left reconcile cands current.

(** *** [ResetFile] *)

Section ResetFile.

(** [fsop.GetFileProps] is not among the sources: the stat of a path,
    answering the inode and one more property of the file, or an error. *)
Variable Error : Type.
Variable GetFileProps : string -> (Z * Z) + Error.

(** The returned pair of results and the requests sent on the channel. *)
Definition ResetFile (filePath : string)
  : (Z * option Error) * list updateRequest :=
  match GetFileProps filePath with
  | inr err => ((-1, Some err), [])
  | inl (inode, _) =>
      ((inode, None),
       [mkUpdateRequest filePath (mkLogRange inode 0 0 true)])
  end.

End ResetFile.

End Tail.

(** ** The file system the worklog is saved to *)

Module Os.

(** What a path names. *)
Inductive node : Type :=
| RegularFile (content : string)
| Directory.

(** The calls that reach the file system, in the order they are made. *)
Inductive event : Type :=
| EvStat (path : string)
| EvCreateTrunc (path : string)
| EvOpen (path : string)
| EvReadFile (path : string)
| EvAppend (path : string) (data : string)
| EvClose (path : string).

Record World : Type := mkWorld {
  files : gmap string node;
  trace : list event
}.

(** What one call does to the files: [O_CREATE|O_TRUNC] leaves an empty
    regular file, a write appends at the end of the file it just
    truncated, nothing else changes a file. *)
Definition applyEvent (fs : gmap string node) (ev : event)
  : gmap string node :=
  match ev with
  | EvCreateTrunc p => <[p := RegularFile ""]> fs
  | EvAppend p data =>
      match fs !! p with
      | Some (RegularFile c) => <[p := RegularFile (c ++ data)%string]> fs
      | _ => fs
      end
  | _ => fs
  end.


Definition emit (ev : event) (w : World) : World :=
  mkWorld (applyEvent (files w) ev) (trace w ++ [ev]).




(** Go's [error], as the message it carries. *)
Definition Error : Type := string.

(** [fmt.Errorf("<prefix>: %w", err)] *)
Definition Errorf (prefix : string) (err : Error) : Error :=
  (prefix ++ ": " ++ err)%string.

(** The failures the operating system may answer a call with, one entry
    per call site; a copy or a write may fail after some of the bytes. *)
Record Faults : Type := mkFaults {
  failStat : bool;
  failReadFile : bool;
  failOpenBackup : bool;
  failOpenStore : bool;
  failCopy : option nat;
  failCreateStore : bool;
  failWrite : option nat
}.

Definition noFaults : Faults :=
  mkFaults false false false false None false None.

(** [fs.IsFile] of cnc-gokit: a stat; a missing path is not an error. *)
Definition IsFile (fail : bool) (path : string) (w : World)
  : (bool + Error) * World :=
  let w := emit (EvStat path) w in
  if fail then (inr "stat failed"%string, w)
  else match files w !! path with
       | Some (RegularFile _) => (inl true, w)
       | _ => (inl false, w)
       end.

(** [os.OpenFile(path, os.O_CREATE|os.O_RDWR|os.O_TRUNC, 0644)]; the
    handle is the path. *)
Definition OpenFile_trunc (fail : bool) (path : string) (w : World)
  : (string + Error) * World :=
  if fail then (inr "open failed"%string, w)
  else match files w !! path with
       | Some Directory => (inr "is a directory"%string, w)
       | _ => (inl path, emit (EvCreateTrunc path) w)
       end.

(** [os.Open(path)] *)
Definition Open (fail : bool) (path : string) (w : World)
  : (string + Error) * World :=
  if fail then (inr "open failed"%string, w)
  else match files w !! path with
       | None => (inr "no such file or directory"%string, w)
       | Some _ => (inl path, emit (EvOpen path) w)
       end.

(** [os.ReadFile(path)] *)
Definition ReadFile (fail : bool) (path : string) (w : World)
  : (string + Error) * World :=
  let w := emit (EvReadFile path) w in
  if fail then (inr "read failed"%string, w)
  else match files w !! path with
       | Some (RegularFile c) => (inl c, w)
       | Some Directory => (inr "is a directory"%string, w)
       | None => (inr "no such file or directory"%string, w)
       end.

(** [f.Write(data)], failing after [n] bytes when told to. *)
Definition Write (fail : option nat) (f : string) (data : string)
    (w : World) : option Error * World :=
  match fail with
  | Some n =>
      (Some "write failed"%string,
       emit (EvAppend f (String.substring 0 n data)) w)
  | None => (None, emit (EvAppend f data) w)
  end.

(** [io.Copy(dst, src)]: what [src] holds when the copy runs goes to
    [dst]. *)
Definition Copy (fail : option nat) (dst src : string) (w : World)
  : option Error * World :=
  match files w !! src with
  | Some (RegularFile c) => Write fail dst c w
  | _ => (Some "read failed"%string, w)
  end.

Definition Close (f : string) (w : World) : World := emit (EvClose f) w.


End Os.

(** ** Package tail: the worklog and its life cycle *)

Module Worklog.

Import Os.

(** A Go channel value: [nil] is [None]. *)
Inductive chanState : Type := ChanOpen | ChanClosed.

Record Worklog : Type := mkWorklog {
  rec : gmap string LogRange;
  updRequests : option chanState;
  storeFilePath : string;
  backupFilePath : string;
  initialized : bool
}.

(** How a call ends: by a panic or by returning. *)
Inductive outcome (A : Type) : Type :=
| Panic (msg : string)
| Return (a : A).
Arguments Panic {A} msg.
Arguments Return {A} a.

Section WithJSON.

(** [json.Marshal] of the map, and cnc-gokit's
    [NewConcurrentMapFromJSON], which answers a map and an error as Go
    functions do. *)
Variable Marshal : gmap string LogRange -> string + Error.
Variable NewConcurrentMapFromJSON :
  string -> gmap string LogRange * option Error.

(** The block of [save] guarded by [if isf]: the copy of the store file
    to the backup path. *)
Definition saveBackup (env : Faults) (w : Worklog) (world : World)
  : option Error * World :=
  match OpenFile_trunc (failOpenBackup env) (backupFilePath w) world with
  | (inr err, world) => (Some (Errorf "failed to save worklog" err), world)
  | (inl backup, world) =>
      match Open (failOpenStore env) (storeFilePath w) world with
      | (inr err, world) =>
          (Some (Errorf "failed to save worklog" err), Close backup world)
      | (inl f0, world) =>
          let '(err, world) := Copy (failCopy env) backup f0 world in
          let world := Close backup (Close f0 world) in
          match err with
          | Some err => (Some (Errorf "failed to save worklog" err), world)
          | None => (None, world)
          end
      end
  end.

(** [save] *)
Definition save (env : Faults) (w : Worklog) (world : World)
  : option Error * World :=
  match IsFile (failStat env) (storeFilePath w) world with
  | (inr err, world) => (Some (Errorf "failed to save worklog" err), world)
  | (inl isf, world) =>
      let '(err, world) :=
        if isf then saveBackup env w world else (None, world) in
      match err with
      | Some err => (Some err, world)
      | None =>
          match OpenFile_trunc (failCreateStore env) (storeFilePath w)
                  world with
          | (inr err, world) =>
              (Some (Errorf "failed to save worklog" err), world)
          | (inl f1, world) =>
              match Marshal (rec w) with
              | inr err => (Some err, Close f1 world)
              | inl data =>
                  let '(err, world) :=
                    Write (failWrite env) f1 data world in
                  (err, Close f1 world)
              end
          end
      end
  end.

(** [Init]; the two goroutines it starts are [Tail.goReadRequests] and
    the timer calling [save]. *)
Definition Init (env : Faults) (w : Worklog) (world : World)
  : outcome (option Error * Worklog * World) :=
  if initialized w then Panic "Worklog already initialized"
  else if bool_decide (storeFilePath w = ""%string) then
    Return
      (Some "failed to initialize tail worklog - no path specified"%string,
       w, world)
  else
    match IsFile (failStat env) (storeFilePath w) world with
    | (inr err, world) =>
        Return (Some (Errorf "failed to initialize tail worklog" err),
                w, world)
    | (inl isf, world) =>
        let started (w : Worklog) (world : World) :=
          Return (None,
                  mkWorklog (rec w) (Some ChanOpen) (storeFilePath w)
                    (backupFilePath w) true,
                  world) in
        if isf then
          match ReadFile (failReadFile env) (storeFilePath w) world with
          | (inr err, world) => Return (Some err, w, world)
          | (inl wlData, world) =>
              if (0 <? String.length wlData)%nat then
                let '(m, err) := NewConcurrentMapFromJSON wlData in
                let w := mkWorklog m (updRequests w) (storeFilePath w)
                           (backupFilePath w) (initialized w) in
                match err with
                | Some err =>
                    Return
                      (Some (Errorf "failed to initialize tail worklog"
                               err),
                       w, world)
                | None => started w world
                end
              else started w world
          end
        else started w world
    end.

(** [Close]; closing a channel that is closed already panics. *)
Definition Close (env : Faults) (w : Worklog) (world : World)
  : outcome (Worklog * World) :=
  let '(_, world) := save env w world in
  match updRequests w with
  | Some ChanClosed => Panic "close of closed channel"
  | Some ChanOpen =>
      Return (mkWorklog (rec w) (Some ChanClosed) (storeFilePath w)
                (backupFilePath w) false,
              world)
  | None =>
      Return (mkWorklog (rec w) None (storeFilePath w)
                (backupFilePath w) false,
              world)
  end.

End WithJSON.

(** [NewWorklog], given the two joined paths. *)
Definition NewWorklog (storePath backupPath : string) : Worklog :=
  mkWorklog ∅ None storePath backupPath false.

End Worklog.

(** ** Go's time package, as far as the transformers use it *)

Module Time.

(** An instant, in nanoseconds since Go's zero time. *)
Definition Time : Type := Z.

(** [time.Time{}] *)
Definition zero : Time := 0.

(** [time.Duration] is an [int64] count of nanoseconds. *)
Definition Duration : Type := Z.

Definition minDuration : Duration := - 2 ^ 63.
Definition maxDuration : Duration := 2 ^ 63 - 1.
Definition Second : Duration := 1000000000.

(** Go's [int64] arithmetic wraps around. *)
Definition wrap64 (z : Z) : Z := (z + 2 ^ 63) mod 2 ^ 64 - 2 ^ 63.

(** [t.Sub(u)]: the difference, held at the ends of the range of
    [Duration]. *)
Definition Sub (t u : Time) : Duration :=
  let d := t - u in
  if d <? minDuration then minDuration
  else if maxDuration <? d then maxDuration
  else d.

End Time.

(** ** Package main: the per-line handler of the tail processor *)

Module TailProcessor.

(** Modelled from the spec: [save.IgnoredItemMsg] and its constructor are
    not among the sources.  A confirmation message tags an ignored unit
    back to its originating file path and byte range. *)
Record IgnoredItemMsg : Type := NewIgnoredItemMsg {
  IgnoredFilePath : string;
  IgnoredPosition : LogRange
}.

Inductive logLevel : Type := LevelWarn | LevelError.

Section OnEntry.

Variables InputRecord OutputRecord Error Buffer : Type.

(** [servicelog.BoundOutputRecord] *)
Record BoundOutputRecord : Type := mkBoundOutputRecord {
  BoundFilePath : string;
  Rec : OutputRecord;
  FilePos : LogRange
}.

(** The interfaces the processor is built from: the line parser, the
    log transformer, the log buffer, the geo-location step and the
    time of an output record. *)
Variable ParseLine : string -> Z -> InputRecord + Error.
Variable isLineParsingError : Error -> bool.
Variable IsProcessable : InputRecord -> bool.
Variable Preprocess :
  InputRecord -> Buffer -> (list InputRecord + Error) * Buffer.
Variable AddRecord : InputRecord -> Buffer -> Buffer.
Variable Transform : InputRecord -> OutputRecord + Error.
Variable applyLocation : InputRecord -> OutputRecord -> OutputRecord.
Variable GetTime : OutputRecord -> Time.Time.

(** What a call of [OnEntry] can change: the two channels of the data
    writer (the values sent, oldest first), the shared log buffer, the
    pings of the health checker and the lines logged. *)
Record procState : Type := mkProcState {
  Elastic : list BoundOutputRecord;
  Ignored : list IgnoredItemMsg;
  logBuffer : Buffer;
  pings : list (string * Time.Time);
  logged : list logLevel
}.

Definition sendIgnored (msg : IgnoredItemMsg) (st : procState)
  : procState :=
  mkProcState (Elastic st) (Ignored st ++ [msg]) (logBuffer st)
    (pings st) (logged st).

Definition sendElastic (r : BoundOutputRecord) (st : procState)
  : procState :=
  mkProcState (Elastic st ++ [r]) (Ignored st) (logBuffer st)
    (pings st) (logged st).

Definition setBuffer (b : Buffer) (st : procState) : procState :=
  mkProcState (Elastic st) (Ignored st) b (pings st) (logged st).

Definition ping (p : string) (t : Time.Time) (st : procState)
  : procState :=
  mkProcState (Elastic st) (Ignored st) (logBuffer st)
    (pings st ++ [(p, t)]) (logged st).

Definition logAt (l : logLevel) (st : procState) : procState :=
  mkProcState (Elastic st) (Ignored st) (logBuffer st) (pings st)
    (logged st ++ [l]).

(** The [for _, precord := range prepInp] loop, which a failing
    [Transform] leaves by [return]. *)
Fixpoint forPrepInp (filePath : string) (logPosition : LogRange)
    (prepInp : list InputRecord) (st : procState) : procState :=
  match prepInp with
  | [] => st
  | precord :: rest =>
      let st := setBuffer (AddRecord precord (logBuffer st)) st in
      match Transform precord with
      | inr _ =>
          sendIgnored (NewIgnoredItemMsg filePath logPosition)
            (logAt LevelError st)
      | inl outRec =>
          let outRec := applyLocation precord outRec in
          let st :=
            sendElastic (mkBoundOutputRecord filePath outRec logPosition)
              st in
          let st := ping filePath (GetTime outRec) st in
          forPrepInp filePath logPosition rest st
      end
  end.

(** [tailProcessor.OnEntry]; of the processor's fields it reads
    [filePath] and the interfaces above, and it works on the log buffer. *)
Definition OnEntry (filePath : string) (st : procState) (item : string)
    (logPosition : LogRange) : procState :=
  match ParseLine item (-1) with
  | inr err =>
      let st :=
        logAt (if isLineParsingError err then LevelWarn else LevelError)
          st in
      sendIgnored (NewIgnoredItemMsg filePath logPosition) st
  | inl parsed =>
      if IsProcessable parsed then
        match Preprocess parsed (logBuffer st) with
        | (inr _, buf) =>
            sendIgnored (NewIgnoredItemMsg filePath logPosition)
              (logAt LevelError (setBuffer buf st))
        | (inl prepInp, buf) =>
            forPrepInp filePath logPosition prepInp (setBuffer buf st)
        end
      else sendIgnored (NewIgnoredItemMsg filePath logPosition) st
  end.

(** The output records of a run of successful transformations. *)
Definition boundOutputs (filePath : string) (logPosition : LogRange)
    (recs : list InputRecord) : list BoundOutputRecord :=
  omap (fun r =>
          match Transform r with
          | inl outRec =>
              Some (mkBoundOutputRecord filePath (applyLocation r outRec)
                      logPosition)
          | inr _ => None
          end) recs.

Definition transforms (r : InputRecord) : bool :=
  match Transform r with inl _ => true | inr _ => false end.

End OnEntry.

End TailProcessor.

(** ** Package mapka3: the transformer's [Preprocess] *)

Module Mapka3.

Section Preprocess.

(** The record and buffer interfaces of package servicelog, the
    clustering analysis and the type of [Epsilon]; none of them is
    among the sources. *)
Variables InputRecord Buffer Float : Type.
Variable ClusteringClientID : InputRecord -> string.
Variable GetTime : InputRecord -> Time.Time.
Variable GetLastCheck : Buffer -> string -> Time.Time.
Variable NumOfRecords : Buffer -> string -> Z.
(** The records [ForEach] hands to its callback, in order. *)
Variable ForEach : Buffer -> string -> list InputRecord.
Variable RemoveAnalyzedRecords : Buffer -> string -> Time.Time -> Buffer.
Variable ConfirmRecordCheck : Buffer -> InputRecord -> Buffer.
Variable Analyze : Z -> Float -> list InputRecord -> list InputRecord.

Record DBScanConf : Type := mkDBScanConf {
  MinDensity : Z;
  Epsilon : Float
}.

Record BufferConf : Type := mkBufferConf {
  HistoryLookupItems : Z;
  AnalysisIntervalSecs : Z;
  ClusteringDBScan : DBScanConf
}.

Record Transformer : Type := NewTransformer { bufferConf : BufferConf }.

Definition HistoryLookupItems_ (t : Transformer) : Z :=
  HistoryLookupItems (bufferConf t).

(** [ci]: the configured interval as a [Duration]. *)
Definition analysisInterval (t : Transformer) : Time.Duration :=
  Time.wrap64 (Time.wrap64 (AnalysisIntervalSecs (bufferConf t))
               * Time.Second).

(** The test [rec.GetTime().Sub(lastCheck) > ci]. *)
Definition analysisDue (t : Transformer) (rec : InputRecord)
    (prevRecs : Buffer) : bool :=
  analysisInterval t
  <? Time.Sub (GetTime rec)
       (GetLastCheck prevRecs (ClusteringClientID rec)).

(** The slice the callback of [ForEach] fills by [append]; [NumOfRecords]
    only sets its capacity. *)
Definition collectItems (prevRecs : Buffer) (clusteringID : string)
  : list InputRecord :=
  fold_left (fun items item => items ++ [item])
    (ForEach prevRecs clusteringID) [].

(** [Transformer.Preprocess]: the records returned and the buffer
    left behind. *)
Definition Preprocess (t : Transformer) (rec : InputRecord)
    (prevRecs : Buffer) : list InputRecord * Buffer :=
  let clusteringID := ClusteringClientID rec in
  let lastCheck := GetLastCheck prevRecs clusteringID in
  let ci := analysisInterval t in
  if ci <? Time.Sub (GetTime rec) lastCheck then
    let items := collectItems prevRecs clusteringID in
    if (0 <? length items)%nat then
      let clustered :=
        Analyze (MinDensity (ClusteringDBScan (bufferConf t)))
          (Epsilon (ClusteringDBScan (bufferConf t))) items in
      if (0 <? length clustered)%nat then
        let prevRecs :=
          RemoveAnalyzedRecords prevRecs clusteringID (GetTime rec) in
        let prevRecs := ConfirmRecordCheck prevRecs rec in
        (clustered, prevRecs)
      else ([rec], prevRecs)
    else ([rec], prevRecs)
  else ([rec], prevRecs).

(** The clusters the analysis finds in the records retained for the
    key of [rec]. *)
Definition clustersOf (t : Transformer) (rec : InputRecord)
    (prevRecs : Buffer) : list InputRecord :=
  Analyze (MinDensity (ClusteringDBScan (bufferConf t)))
    (Epsilon (ClusteringDBScan (bufferConf t)))
    (ForEach prevRecs (ClusteringClientID rec)).

End Preprocess.

End Mapka3.

(** ** Package kontext018: the input record *)

Module Kontext018.

Import Worklog.

Record Request : Type := mkRequest {
  HTTPForwardedFor : string;
  HTTPUserAgent : string;
  HTTPRemoteAddr : string;
  RemoteAddr : string;
  HTTPIsWebApp : string
}.

(** The record, without the fields that hold floats or untyped JSON
    ([Exception], [ProcTime], [Args], [Error]); no function below reads
    them. *)
Record InputRecord : Type := mkInputRecord {
  Logger : string;
  Level : string;
  Date : string;
  Message : string;
  UserID : Z;
  Action : string;
  IsIndirectCall : bool;
  IsAPI : bool;
  Request_ : Request;
  isProcessable : bool
}.

Definition IsProcessable (rec : InputRecord) : bool := isProcessable rec.

Definition GetUserAgent (rec : InputRecord) : string :=
  HTTPUserAgent (Request_ rec).

Definition ShouldBeAnalyzed (rec : InputRecord) : bool :=
  bool_decide (Action rec = "query_submit"%string)
  || bool_decide (Action rec = "create_view"%string)
  || bool_decide (Action rec = "create_lazy_view"%string)
  || bool_decide (Action rec = "wordlist/submit"%string).

(** [s[len(s)-1]]: the last byte, if there is one. *)
Definition lastByte (s : string) : option Ascii.ascii :=
  String.get (String.length s - 1)%nat s.

Section GetTime.

(** The two converters of package servicelog are not among the
    sources. *)
Variable ConvertDatetimeStringWithMillisNoTZ : string -> Time.Time.
Variable ConvertDatetimeStringWithMillis : string -> Time.Time.

(** [InputRecord.GetTime]; indexing an empty [Date] panics. *)
Definition GetTime (rec : InputRecord) : outcome Time.Time :=
  if isProcessable rec then
    match lastByte (Date rec) with
    | Some c =>
        if bool_decide (c = "Z"%char) then
          Return
            (ConvertDatetimeStringWithMillisNoTZ
               (String.substring 0 (String.length (Date rec) - 1)%nat
                  (Date rec) ++ "000")%string)
        else Return (ConvertDatetimeStringWithMillis (Date rec))
    | None => Panic "index out of range [-1]"
    end
  else Return Time.zero.

End GetTime.

Definition withDate (d : string) (rec : InputRecord) : InputRecord :=
  mkInputRecord (Logger rec) (Level rec) d (Message rec) (UserID rec)
    (Action rec) (IsIndirectCall rec) (IsAPI rec) (Request_ rec)
    (isProcessable rec).

End Kontext018.

(** ** Further definitions on the ledger *)

Module Ledger.

Import Tail.

(** The farthest end among an entry and candidates. *)
Definition maxSeekEnd (current : LogRange) (cands : list LogRange) : Z :=
  fold_left Z.max (SeekEnd <$> cands) (SeekEnd current).


End Ledger.

(** ** The worklog's [Reset] *)

Module WorklogReset.

Import Os Worklog.

(** [os.Truncate(path, 0)] of a file that is there: it is left empty, as
    by a truncating open, which is how the trace records it. *)
Definition Truncate (fail : bool) (path : string) (w : World)
  : option Error * World :=
  if fail then (Some "truncate failed"%string, w)
  else match files w !! path with
       | Some (RegularFile _) => (None, emit (EvCreateTrunc path) w)
       | Some Directory => (Some "is a directory"%string, w)
       | None => (Some "no such file or directory"%string, w)
       end.

(** [Worklog.Reset] *)
Definition Reset (env : Faults) (failTruncate : bool) (w : Worklog)
    (world : World) : option Error * World :=
  match IsFile (failStat env) (storeFilePath w) world with
  | (inr err, world) => (Some (Errorf "cannot reset worklog" err), world)
  | (inl ex, world) =>
      if ex then Truncate failTruncate (storeFilePath w) world
      else (None, world)
  end.

End WorklogReset.

(** ** What a line appends to the channels *)

Module TailProcessorShape.

Import TailProcessor.

Section Appended.

Variables OutputRecord Buffer : Type.

(** What a run of [OnEntry] appends: output records bound to the file and
    the range, one ping for each, and at most one ignored message. *)
Definition appended (filePath : string) (logPosition : LogRange)
    (st st' : procState OutputRecord Buffer) : Prop :=
  exists newOut newIgn,
    Elastic _ _ st' = Elastic _ _ st ++ newOut
    /\ Ignored _ _ st' = Ignored _ _ st ++ newIgn
    /\ Forall (fun r => BoundFilePath _ r = filePath
                        /\ FilePos _ r = logPosition) newOut
    /\ (newIgn = [] \/ newIgn = [NewIgnoredItemMsg filePath logPosition])
    /\ length (pings _ _ st') = (length (pings _ _ st) + length newOut)%nat.

End Appended.

End TailProcessorShape.

(** ** Go's strings and strconv packages, as far as the parsers use them *)

Module Strings.

(** Does the byte occur in the string? *)
Fixpoint hasByte (c : ascii) (s : string) : bool :=
  match s with
  | EmptyString => false
  | String d rest => Ascii.eqb d c || hasByte c rest
  end.

(** [strings.Split(s, sep)] for a separator of one byte: the pieces around
    every occurrence of it, so one piece more than there are separators. *)
Fixpoint Split (s : string) (sep : ascii) : list string :=
  match s with
  | EmptyString => [EmptyString]
  | String c rest =>
      if Ascii.eqb c sep then EmptyString :: Split rest sep
      else match Split rest sep with
           | piece :: pieces => String c piece :: pieces
           | [] => [String c EmptyString]
           end
  end.

(** [strings.Join(elems, sep)] *)
Fixpoint Join (elems : list string) (sep : string) : string :=
  match elems with
  | [] => EmptyString
  | [x] => x
  | x :: rest => (x ++ sep ++ Join rest sep)%string
  end.

(** [s[0]] and [s[len(s)-1]], when the string has them. *)
Definition firstByte (s : string) : option ascii := String.get 0 s.

Definition lastByte (s : string) : option ascii :=
  String.get (String.length s - 1)%nat s.

(** [strings.Index(s, substr)]: the index of the first occurrence, or -1. *)
Definition Index (s substr : string) : Z :=
  match String.index 0 substr s with
  | Some i => Z.of_nat i
  | None => -1
  end.

(** [strings.TrimLeft], [strings.TrimRight] and [strings.Trim] for a
    cutset of bytes. *)
Fixpoint TrimLeft (s cutset : string) : string :=
  match s with
  | EmptyString => EmptyString
  | String c rest => if hasByte c cutset then TrimLeft rest cutset else s
  end.

Fixpoint TrimRight (s cutset : string) : string :=
  match s with
  | EmptyString => EmptyString
  | String c rest =>
      match TrimRight rest cutset with
      | EmptyString =>
          if hasByte c cutset then EmptyString else String c EmptyString
      | kept => String c kept
      end
  end.

Definition Trim (s cutset : string) : string :=
  TrimRight (TrimLeft s cutset) cutset.

End Strings.

Module Strconv.

(** The error of [strconv.Atoi]: the text it could not convert, be it
    for its syntax or for its range. *)
Inductive NumError : Type := mkNumError (num : string).

Definition isDigit (c : ascii) : bool :=
  (48 <=? nat_of_ascii c)%nat && (nat_of_ascii c <=? 57)%nat.

(** The value of a run of decimal digits read after [acc]. *)
Fixpoint digitsFrom (acc : Z) (s : string) : option Z :=
  match s with
  | EmptyString => Some acc
  | String c rest =>
      if isDigit c
      then digitsFrom (acc * 10 + Z.of_nat (nat_of_ascii c - 48)) rest
      else None
  end.

(** [strconv.Atoi] on a 64-bit platform: an optional sign, then at least
    one decimal digit and nothing else; the value must fit an [int]. *)
Definition Atoi (s : string) : Z + NumError :=
  let '(neg, body) :=
    match s with
    | EmptyString => (false, s)
    | String c rest =>
        if Ascii.eqb c "-" then (true, rest)
        else if Ascii.eqb c "+" then (false, rest)
        else (false, s)
    end in
  match body with
  | EmptyString => inr (mkNumError s)
  | _ =>
      match digitsFrom 0 body with
      | None => inr (mkNumError s)
      | Some n =>
          let v := if neg then - n else n in
          if (- 2 ^ 63 <=? v) && (v <=? 2 ^ 63 - 1) then inl v
          else inr (mkNumError s)
      end
  end.

End Strconv.

(** ** Package accesslog: the tokenizer of access log lines *)

Module Accesslog.

Import Strings Worklog.

(** The double quote, byte 34. *)
Definition dquote : ascii :=
  Ascii false true false false false true false false.

Definition testOpenQuot (c : ascii) : ascii :=
  if Ascii.eqb c dquote then dquote
  else if Ascii.eqb c "["%char then "]"%char
  else Ascii.zero.

Definition isCloseQuot (start c : ascii) : bool :=
  Ascii.eqb start dquote && Ascii.eqb c dquote
  || Ascii.eqb start "["%char && Ascii.eqb c "]"%char.

(** The error of [updateTokenAt]: the index asked for and the number of
    tokens available, which its message prints. *)
Inductive TokenError : Type := mkTokenError (i : nat) (available : nat).

(** [updateTokenAt]: the slice after the assignment, or the error. *)
Definition updateTokenAt (items : list string) (i : nat) (value : string)
  : list string + TokenError :=
  if (i <? length items)%nat then inl (<[i := value]> items)
  else inr (mkTokenError i (length items)).

(** The variables of the loop of [tokenize]. *)
Record tokState : Type := mkTokState {
  items : list string;
  currQuoted : list string;
  currQuotChar : ascii;
  parsedPos : nat
}.

(** The body of the loop for one piece of the line; indexing a piece out
    of its range panics. *)
Definition tokenizeItem (st : tokState) (item : string)
  : outcome (tokState + TokenError) :=
  let len := String.length item in
  if (len =? 0)%nat then Return (inl st)
  else
    match firstByte item, lastByte item with
    | Some c0, Some cl =>
        if Ascii.eqb (currQuotChar st) Ascii.zero then
          let closeChar := testOpenQuot c0 in
          if negb (Ascii.eqb closeChar Ascii.zero)
             && negb (Ascii.eqb cl closeChar) then
            Return
              (inl (mkTokState (items st)
                      (currQuoted st ++ [String.substring 1 (len - 1) item])
                      c0 (parsedPos st)))
          else if negb (Ascii.eqb closeChar Ascii.zero)
                  && Ascii.eqb cl closeChar then
            if (1 <? len)%nat then
              match updateTokenAt (items st) (parsedPos st)
                      (String.substring 1 (len - 2) item) with
              | inr err => Return (inr err)
              | inl items' =>
                  Return
                    (inl (mkTokState items' (currQuoted st)
                            (currQuotChar st) (S (parsedPos st))))
              end
            else
              Return
                (inl (mkTokState (items st) (currQuoted st)
                        (currQuotChar st) (S (parsedPos st))))
          else if Ascii.eqb closeChar Ascii.zero
                  && (parsedPos st <? length (items st))%nat then
            Return
              (inl (mkTokState (<[parsedPos st := item]> (items st))
                      (currQuoted st) (currQuotChar st)
                      (S (parsedPos st))))
          else Return (inl st)
        else
          if isCloseQuot (currQuotChar st) cl then
            let quoted :=
              currQuoted st ++ [String.substring 0 (len - 1) item] in
            match updateTokenAt (items st) (parsedPos st)
                    (Join quoted " ") with
            | inr err => Return (inr err)
            | inl items' =>
                Return
                  (inl (mkTokState items' [] Ascii.zero (S (parsedPos st))))
            end
          else if negb (isCloseQuot (currQuotChar st) c0)
                  && negb (isCloseQuot (currQuotChar st) cl) then
            Return
              (inl (mkTokState (items st) (currQuoted st ++ [item])
                      (currQuotChar st) (parsedPos st)))
          else Return (inl st)
    | _, _ => Panic "index out of range"
    end.

(** The loop over the pieces, left at the first error. *)
Fixpoint tokenizeItems (st : tokState) (pieces : list string)
  : outcome (tokState + TokenError) :=
  match pieces with
  | [] => Return (inl st)
  | item :: rest =>
      match tokenizeItem st item with
      | Return (inl st') => tokenizeItems st' rest
      | other => other
      end
  end.

Definition initialTokState : tokState :=
  mkTokState (replicate 10 EmptyString) [] Ascii.zero 0.

(** [LineParser.tokenize] *)
Definition tokenize (s : string) : outcome (list string + TokenError) :=
  match tokenizeItems initialTokState (Split s " ") with
  | Return (inl st) => Return (inl (items st))
  | Return (inr err) => Return (inr err)
  | Panic msg => Panic msg
  end.

(** *** Lines as they are written *)

(** A field of a line: a bare word, or words between a pair of quotes or
    of brackets. *)
Inductive field : Type :=
| Plain (w : string)
| Quoted (opening : ascii) (ws : list string).

Definition render (f : field) : string :=
  match f with
  | Plain w => w
  | Quoted q ws =>
      String q (Join ws " " ++ String (testOpenQuot q) EmptyString)
  end.

Definition value (f : field) : string :=
  match f with
  | Plain w => w
  | Quoted _ ws => Join ws " "
  end.

(** The characters that open a quoted field. *)
Definition opening (q : ascii) : Prop := q = dquote \/ q = "["%char.

(** A piece that opens no quote. *)
Definition bare (w : string) : Prop :=
  forall c, firstByte w = Some c -> testOpenQuot c = Ascii.zero.

(** A word: not empty and without a space. *)
Definition word (w : string) : Prop :=
  w <> EmptyString /\ hasByte " " w = false.

(** A field the tokenizer reads back: a bare word does not start with an
    opening character; the words in quotes neither start nor end with the
    closing character. *)
Definition wellFormed (f : field) : Prop :=
  match f with
  | Plain w => word w /\ bare w
  | Quoted q ws =>
      opening q
      /\ ws <> []
      /\ Forall (fun w => word w
                          /\ firstByte w <> Some (testOpenQuot q)
                          /\ lastByte w <> Some (testOpenQuot q)) ws
  end.

(** Ten tokens: the given ones, cut or filled with empty strings. *)
Definition pad10 (tokens : list string) : list string :=
  take 10 tokens ++ replicate (10 - length tokens) EmptyString.

(** The words with the closing character put after the last one. *)
Fixpoint closeLast (closing : ascii) (ws : list string) : list string :=
  match ws with
  | [] => []
  | [w] => [(w ++ String closing EmptyString)%string]
  | w :: rest => w :: closeLast closing rest
  end.

(** The pieces between single spaces a field is written as. *)
Definition decorate (q : ascii) (ws : list string) : list string :=
  match closeLast (testOpenQuot q) ws with
  | [] => [String q (String (testOpenQuot q) EmptyString)]
  | p :: ps => String q p :: ps
  end.

Definition pieces (f : field) : list string :=
  match f with
  | Plain w => [w]
  | Quoted q ws => decorate q ws
  end.

(** The variables of the loop between two fields, [done] being the tokens
    read so far. *)
Definition stateOf (done : list string) : tokState :=
  mkTokState (pad10 done) [] Ascii.zero (min 10 (length done)).

(** *** The line parser *)

Section ParseLine.

(** [float64] with its -1, [strconv.ParseFloat(s, 64)], and of package
    [net/url] the type [URL] with its fields [Path] and [RawQuery],
    [Parse], the type [Values] and [ParseQuery]. *)
Variable Float : Type.
Variable minusOne : Float.
Variable FloatError : Type.
Variable ParseFloat : string -> Float + FloatError.
Variable URL : Type.
Variable URLPath : URL -> string.
Variable RawQuery : URL -> string.
Variable URLError : Type.
Variable urlParse : string -> URL + URLError.
Variable Values : Type.
Variable ParseQuery : string -> Values + URLError.

(** The two errors of [getProcTime], with what their messages print. *)
Inductive ProcTimeError : Type :=
| ProcTimeNumber (procTimeExpr : string) (err : FloatError)
| ProcTimeSyntax (procTimeExpr : string).

(** [getProcTime] *)
Definition getProcTime (procTimeExpr : string)
  : Float * option ProcTimeError :=
  if String.eqb procTimeExpr EmptyString then (minusOne, None)
  else if Index procTimeExpr "rt=" =? 0 then
    let pts :=
      Trim (String.substring 3 (String.length procTimeExpr - 3)
              procTimeExpr)
        (String dquote EmptyString) in
    match ParseFloat pts with
    | inl pt => (pt, None)
    | inr err => (minusOne, Some (ProcTimeNumber procTimeExpr err))
    end
  else (minusOne, Some (ProcTimeSyntax procTimeExpr)).

Record ParsedAccessLog : Type := mkParsedAccessLog {
  IPAddress : string;
  Username : string;
  Datetime : string;
  HTTPMethod : string;
  HTTPVersion : string;
  Path : string;
  (** A nil map when no URL was parsed. *)
  URLArgs : option Values;
  Referrer : string;
  UserAgent : string;
  ProcTime : Float
}.

(** What a line parsing error of [ParseLine] was made from. *)
Inductive ParseCause : Type :=
| TokenizeFailed (err : TokenError)
| URLFailed (err : URLError)
| QueryFailed (err : URLError).

(** The errors [ParseLine] returns: a line parsing error with the number
    of the line, or the error of [getProcTime] as it is. *)
Inductive ParseLineError : Type :=
| LineParsingError (lineNum : Z) (cause : ParseCause)
| ProcTimeFailed (err : ProcTimeError).

(** [tokens[i]] *)
Definition tokenAt (tokens : list string) (i : nat) : outcome string :=
  match tokens !! i with
  | Some token => Return token
  | None => Panic "index out of range"
  end.

Definition andThen {A B : Type} (o : outcome A) (k : A -> outcome B)
  : outcome B :=
  match o with
  | Panic msg => Panic msg
  | Return a => k a
  end.

(** The request block of three parts: the method, the version and the
    parsed URL; of any other number of parts: nothing. *)
Definition parseRequest (urlBlock : list string)
  : string * string * option URL + ParseCause :=
  match urlBlock with
  | [method; target; version] =>
      match urlParse target with
      | inl parsedURL => inl (method, version, Some parsedURL)
      | inr err => inr (URLFailed err)
      end
  | _ => inl (EmptyString, EmptyString, None)
  end.

(** The path and the arguments of the parsed URL, if there is one. *)
Definition parseArgs (parsedURL : option URL)
  : string * option Values + ParseCause :=
  match parsedURL with
  | Some u =>
      match ParseQuery (RawQuery u) with
      | inl args => inl (URLPath u, Some args)
      | inr err => inr (QueryFailed err)
      end
  | None => inl (EmptyString, None)
  end.

(** [LineParser.ParseLine]: the record and the error, either of which
    may be nil. *)
Definition ParseLine (s : string) (lineNum : Z)
  : outcome (option ParsedAccessLog * option ParseLineError) :=
  andThen (tokenize s) (fun tokenized =>
  match tokenized with
  | inr err =>
      Return (None, Some (LineParsingError lineNum (TokenizeFailed err)))
  | inl tokens =>
      andThen (tokenAt tokens 0) (fun ipAddress =>
      andThen (tokenAt tokens 2) (fun username =>
      andThen (tokenAt tokens 3) (fun datetime =>
      andThen (tokenAt tokens 4) (fun request =>
      match parseRequest (Split request " ") with
      | inr cause => Return (None, Some (LineParsingError lineNum cause))
      | inl (method, version, parsedURL) =>
          match parseArgs parsedURL with
          | inr cause =>
              Return (None, Some (LineParsingError lineNum cause))
          | inl (path, args) =>
              andThen (tokenAt tokens 7) (fun referrer =>
              andThen (tokenAt tokens 8) (fun userAgent =>
              andThen (tokenAt tokens 9) (fun procTimeExpr =>
              let '(procTime, err) := getProcTime procTimeExpr in
              Return
                (Some
                   (mkParsedAccessLog ipAddress username datetime method
                      version path args referrer userAgent procTime),
                 ProcTimeFailed <$> err))))
          end
      end))))
  end).

End ParseLine.

End Accesslog.

(** ** Package conversion: users and time zones *)

Module Conversion.

Import Strings Strconv Worklog.

(** [UserBelongsToList] *)
Fixpoint UserBelongsToList (userID : Z) (anonymousUsers : list Z) : bool :=
  match anonymousUsers with
  | [] => false
  | v :: rest => if v =? userID then true else UserBelongsToList userID rest
  end.

(** The errors of [TimezoneToInt]: its own message, or the error of
    [Atoi]. *)
Inductive TimezoneError : Type :=
| CannotParse (tz : string)
| NotANumber (err : NumError).

(** [TimezoneToInt]; indexing an empty string panics, and [int]
    arithmetic wraps around. *)
Definition TimezoneToInt (tz : string) : outcome (Z + TimezoneError) :=
  match firstByte tz with
  | None => Panic "index out of range [0]"
  | Some c =>
      let sgn :=
        if Ascii.eqb c "-" then Some (-1)
        else if negb (Ascii.eqb c "+") then None
        else Some 1 in
      match sgn with
      | None => Return (inr (CannotParse tz))
      | Some sgn =>
          let items :=
            Split (String.substring 1 (String.length tz - 1) tz) ":" in
          match items with
          | [a; b] =>
              match Atoi a with
              | inr err => Return (inr (NotANumber err))
              | inl v1 =>
                  match Atoi b with
                  | inr err => Return (inr (NotANumber err))
                  | inl v2 =>
                      Return
                        (inl (Time.wrap64
                                (sgn * Time.wrap64
                                         (Time.wrap64 (60 * v1) + v2))))
                  end
              end
          | _ => Return (inr (CannotParse tz))
          end
      end
  end.

End Conversion.

(** ** Package treqapi: the transformer *)

Module Treqapi.

Import Strconv Worklog Conversion.

(** Modelled from the spec: the input record of package treqapi is not
    among the sources; these are the fields [Transform] reads, with the
    time [GetTime] answers. *)
Record InputRecord : Type := mkInputRecord {
  UserID : string;
  From : string;
  To : string;
  IP : string;
  Regex : bool;
  CI : bool;
  Multiword : bool;
  Lemma_ : bool;
  time : Time.Time
}.

(** A value of the interface [servicelog.InputRecord]: a record of this
    package or of another one. *)
Inductive anyInputRecord : Type :=
| TreqapiRecord (r : InputRecord)
| ForeignRecord.

Section Transform.

(** What [SetTime] stores in the output record. *)
Variable TimeFields : Type.
Variable SetTime : Time.Time -> Z -> TimeFields.

(** Modelled from the spec: [treq.OutputRecord] is not among the sources;
    these are the fields [Transform] fills, the fields [SetTime] stores
    and the ID. *)
Record OutputRecord : Type := mkOutputRecord {
  Type_ : string;
  IsAPI : bool;
  QLang : string;
  SecondLang : string;
  IPAddress : string;
  OutUserID : string;
  IsAnonymous : bool;
  IsRegexp : bool;
  IsCaseInsen : bool;
  IsMultiWord : bool;
  IsLemma : bool;
  timeFields : option TimeFields;
  ID : string
}.

Variable GenerateDeterministicID : OutputRecord -> string.

Record Transformer : Type := mkTransformer { AnonymousUsers : list Z }.

Inductive TransformError : Type :=
| FailedToConvertUserID (userID : string) (err : NumError).

Definition withTime (tf : TimeFields) (out : OutputRecord) : OutputRecord :=
  mkOutputRecord (Type_ out) (IsAPI out) (QLang out) (SecondLang out)
    (IPAddress out) (OutUserID out) (IsAnonymous out) (IsRegexp out)
    (IsCaseInsen out) (IsMultiWord out) (IsLemma out) (Some tf) (ID out).

Definition withID (id : string) (out : OutputRecord) : OutputRecord :=
  mkOutputRecord (Type_ out) (IsAPI out) (QLang out) (SecondLang out)
    (IPAddress out) (OutUserID out) (IsAnonymous out) (IsRegexp out)
    (IsCaseInsen out) (IsMultiWord out) (IsLemma out) (timeFields out) id.

(** [Transformer.Transform].  The [UserBelongsToList] it calls is the one
    of package servicelog, which is not among the sources; the function
    of that name of package conversion stands for it. *)
Definition Transform (t : Transformer) (logRecord : anyInputRecord)
    (tzShiftMin : Z) : outcome (OutputRecord + TransformError) :=
  match logRecord with
  | ForeignRecord => Panic "failed type assertion"
  | TreqapiRecord tLogRecord =>
      let userID :=
        if bool_decide (UserID tLogRecord <> "-"%string) then
          match Atoi (UserID tLogRecord) with
          | inl uid => inl uid
          | inr err => inr (FailedToConvertUserID (UserID tLogRecord) err)
          end
        else inl (-1) in
      match userID with
      | inr err => Return (inr err)
      | inl userID =>
          let out :=
            mkOutputRecord "treq" true (From tLogRecord) (To tLogRecord)
              (IP tLogRecord) (UserID tLogRecord)
              ((userID =? -1)
               || UserBelongsToList userID (AnonymousUsers t))
              (Regex tLogRecord) (CI tLogRecord) (Multiword tLogRecord)
              (Lemma_ tLogRecord) None EmptyString in
          let out := withTime (SetTime (time tLogRecord) tzShiftMin) out in
          let out := withID (GenerateDeterministicID out) out in
          Return (inl out)
      end
  end.

End Transform.

End Treqapi.

(** ** Package batch: the choice of log files *)

Module Batch.

Section FileSelect.

Variable Error : Type.

(** [datetimePattern.FindStringSubmatch]: nothing when the line does not
    match, otherwise the match and its one group. *)
Variable FindStringSubmatch : string -> option (string * string).

(** The Unix time of what [time.Parse] reads with the layout
    "2006-01-02 15:04:05", or its error. *)
Variable parseUnix : string -> Z + Error.

(** [os.Open] followed by one [Scan] of a scanner: the text of the first
    line, or the error of the open. *)
Variable openFirstLine : string -> string + Error.

Variable GetFileMtime : string -> Z.
Variable IsFile : string -> bool.
Variable ReadDir : string -> list string + Error.
Variable pathJoin : string -> string -> string.

(** [importTimeFromLine]: the [err] it returns at the end is the one
    declared before the [if]; the error of [time.Parse] lives in the
    inner scope only. *)
Definition importTimeFromLine (lineStr : string) (tzShiftMin : Z)
  : Z * option Error :=
  let err : option Error := None in
  match FindStringSubmatch lineStr with
  | Some (_, group) =>
      match parseUnix group with
      | inl unix =>
          (Time.wrap64 (unix + Time.wrap64 (tzShiftMin * 60)), None)
      | inr _ => (-1, err)
      end
  | None => (-1, err)
  end.

(** [LogFileMatches] *)
Definition LogFileMatches (filePath : string) (minTimestamp : Z)
    (strictMatch : bool) (tzShiftMin : Z) : bool * option Error :=
  match openFirstLine filePath with
  | inr err => (false, Some err)
  | inl line =>
      match importTimeFromLine line tzShiftMin with
      | (_, Some err) => (false, Some err)
      | (startTime, None) =>
          let startTime :=
            if (startTime <? minTimestamp) && negb strictMatch
            then GetFileMtime filePath
            else startTime in
          (startTime >=? minTimestamp, None)
      end
  end.

(** One turn of the loop of [getFilesInDir] over the slice [ans] and the
    index [i]. *)
Definition getFilesStep (dirPath : string) (minTimestamp : Z)
    (strictMatch : bool) (tzShiftMin : Z) (state : list string * nat)
    (item : string) : list string * nat :=
  let '(ans, i) := state in
  let logPath := pathJoin dirPath item in
  if negb (IsFile logPath) then (ans, i)
  else
    match LogFileMatches logPath minTimestamp strictMatch tzShiftMin with
    | (_, Some _) => (ans, i)
    | (true, None) => (<[i := logPath]> ans, S i)
    | (false, None) => (ans, i)
    end.

(** [getFilesInDir] *)
Definition getFilesInDir (dirPath : string) (minTimestamp : Z)
    (strictMatch : bool) (tzShiftMin : Z) : list string :=
  match ReadDir dirPath with
  | inl tmp =>
      let '(ans, i) :=
        fold_left (getFilesStep dirPath minTimestamp strictMatch tzShiftMin)
          tmp (replicate (length tmp) EmptyString, 0%nat) in
      take i ans
  | inr _ => []
  end.

(** Does the file at the path count: a file, read without an error,
    whose first record is recent enough? *)
Definition selected (minTimestamp : Z) (strictMatch : bool)
    (tzShiftMin : Z) (logPath : string) : bool :=
  IsFile logPath
  && match LogFileMatches logPath minTimestamp strictMatch tzShiftMin with
     | (true, None) => true
     | _ => false
     end.

End FileSelect.

End Batch.

(** ** Concrete inputs used below *)

Module Examples.

Import Tail.

Definition exampleLedger : gmap string LogRange :=
  {[ "/var/log/app.log"%string := mkLogRange 5 0 100 true ]}.

Definition exampleRequests : list updateRequest :=
  [ mkUpdateRequest "/var/log/app.log" (mkLogRange 5 100 180 false);
    mkUpdateRequest "/var/log/other.log" (mkLogRange 9 0 40 true);
    mkUpdateRequest "/var/log/app.log" (mkLogRange 5 0 60 true);
    mkUpdateRequest "/var/log/app.log" (mkLogRange 5 100 180 true) ].

(** The three updates of the out-of-order scenario, for the file
    identity [inode]. *)
Definition scenarioB (path : string) (inode : Z) : list updateRequest :=
  [ mkUpdateRequest path (mkLogRange inode 0 100 false);
    mkUpdateRequest path (mkLogRange inode 0 50 true);
    mkUpdateRequest path (mkLogRange inode 0 100 true) ].

(** The stat of the example: every path is a file of inode 5. *)
Definition statInode5 (path : string) : (Z * Z) + string := inl (5, 0).

(** A worklog as [NewWorklog] builds it, a store file of an earlier save,
    and a serializer. *)
Definition exampleWorklog : Worklog.Worklog :=
  Worklog.mkWorklog exampleLedger None "/wl/app.json" "/wl/app.json.bak"
    false.

Definition exampleFiles : gmap string Os.node :=
  {[ "/wl/app.json"%string := Os.RegularFile "{old}" ]}.

Definition exampleMarshal (m : gmap string LogRange) : string + Os.Error :=
  inl "{new}"%string.

Definition exampleUnmarshal (data : string)
  : gmap string LogRange * option Os.Error :=
  (exampleLedger, None).

(** A parser, a transformer and a buffer for [OnEntry]: records are
    numbers, every line parses to record 0, [Preprocess] answers the two
    records 1 and 2 in its place, and [Transform] rejects record 2. *)
Definition exParseLine (item : string) (lineNum : Z) : nat + string :=
  inl 0%nat.

Definition exPreprocess (r : nat) (buf : list nat)
  : (list nat + string) * list nat :=
  (inl [1%nat; 2%nat], buf).

Definition exTransform (r : nat) : nat + string :=
  if (r =? 2)%nat then inr "rejected"%string else inl r.

Definition exOnEntry :=
  TailProcessor.OnEntry nat nat string (list nat) exParseLine
    (fun _ => true) (fun _ => true) exPreprocess cons exTransform
    (fun _ out => out) (fun _ => Time.zero).

Definition exProcState : TailProcessor.procState nat (list nat) :=
  TailProcessor.mkProcState nat (list nat) [] [] [] [] [].

(** Records and a buffer for the mapka3 [Preprocess]: a record is its
    clustering key and its time; the buffer keeps the retained records and
    the time of the last check of each key; the analysis answers the first
    record of a window holding at least [minDensity] records. *)
Record exRecord : Type := mkExRecord { exKey : string; exTime : Z }.

Record exBuffer : Type := mkExBuffer {
  exRecords : list exRecord;
  exChecks : gmap string Z
}.

Definition exGetLastCheck (b : exBuffer) (key : string) : Time.Time :=
  default Time.zero (exChecks b !! key).

Definition exForEach (b : exBuffer) (key : string) : list exRecord :=
  filter (fun r => exKey r = key) (exRecords b).

Definition exNumOfRecords (b : exBuffer) (key : string) : Z :=
  Z.of_nat (length (exForEach b key)).

Definition exRemoveAnalyzedRecords (b : exBuffer) (key : string)
    (upTo : Time.Time) : exBuffer :=
  mkExBuffer
    (filter (fun r => ~ (exKey r = key /\ exTime r <= upTo)) (exRecords b))
    (exChecks b).

Definition exConfirmRecordCheck (b : exBuffer) (r : exRecord) : exBuffer :=
  mkExBuffer (exRecords b) (<[exKey r := exTime r]> (exChecks b)).

Definition exAnalyze (minDensity : Z) (epsilon : unit)
    (items : list exRecord) : list exRecord :=
  if minDensity <=? Z.of_nat (length items) then take 1 items else [].

Definition exPreprocessMapka3 :=
  Mapka3.Preprocess exRecord exBuffer unit exKey exTime exGetLastCheck
    exForEach exRemoveAnalyzedRecords exConfirmRecordCheck exAnalyze.

Definition exTransformer : Mapka3.Transformer unit :=
  Mapka3.NewTransformer unit
    (Mapka3.mkBufferConf unit 10 60 (Mapka3.mkDBScanConf unit 2 tt)).

(** Two records of client "c1" retained, never checked. *)
Definition exBufferTwo : exBuffer :=
  mkExBuffer
    [mkExRecord "c1" 1000000000; mkExRecord "c1" 2000000000] ∅.

(** A kontext018 record that could not be read. *)
Definition exUnreadable : Kontext018.InputRecord :=
  Kontext018.mkInputRecord "" "" "" "" 0 "" false false
    (Kontext018.mkRequest "" "" "" "" "") false.

End Examples.

(** ** More concrete inputs *)

Module MoreExamples.

Import Tail.

(** Two confirmed chunks of inode 5 behind position 100, and the same two
    confirmed in the opposite order. *)
Definition confirmedInOrder : list updateRequest :=
  [ mkUpdateRequest "/var/log/app.log" (mkLogRange 5 100 180 true);
    mkUpdateRequest "/var/log/app.log" (mkLogRange 5 180 250 true) ].

Definition confirmedOutOfOrder : list updateRequest :=
  [ mkUpdateRequest "/var/log/app.log" (mkLogRange 5 180 250 true);
    mkUpdateRequest "/var/log/app.log" (mkLogRange 5 100 180 true) ].

(** A file system holding the store of another instance. *)
Definition otherFiles : gmap string Os.node :=
  {[ "/wl/other.json"%string := Os.RegularFile "{other}" ]}.

(** The example processor with a transformer that accepts every record. *)
Definition exOnEntryAccepting :=
  TailProcessor.OnEntry nat nat string (list nat) Examples.exParseLine
    (fun _ => true) (fun _ => true) Examples.exPreprocess cons
    (fun r => inl r) (fun _ out => out) (fun _ => Time.zero).

(** The fields of the line the comment of [ParseLine] gives as an
    example (user agent shortened). *)
Definition exampleFields : list Accesslog.field :=
  [ Accesslog.Plain "195.113.53.123"; Accesslog.Plain "-";
    Accesslog.Plain "johndoe";
    Accesslog.Quoted "[" ["16/Sep/2019:08:24:05"; "+0200"]%string;
    Accesslog.Quoted Accesslog.dquote
      ["GET"; "/ske/css/images/ui-bg.png"; "HTTP/2.0"]%string;
    Accesslog.Plain "200"; Accesslog.Plain "332";
    Accesslog.Quoted Accesslog.dquote
      ["https://www.korpus.cz/ske/css/jquery-ui.min.css"%string];
    Accesslog.Quoted Accesslog.dquote
      ["Mozilla/5.0"; "(X11;"; "Linux"; "x86_64)"; "Safari/537.36"]%string;
    Accesslog.Plain "rt=0.012" ].

End MoreExamples.

(** ** Tactics *)

(** Lookups in a file system built by inserts at the store and backup
    paths. *)
Ltac fs_simpl :=
  repeat (simpl in *;
          first [ rewrite lookup_insert_eq
                | rewrite lookup_insert_ne by congruence
                | match goal with
                  | H : ?m !! ?k = _ |- context [?m !! ?k] => rewrite H
                  end
                | progress change (String.app EmptyString ?s) with s ]);
  simpl in *.




(** ** More tactics *)

(** The paths through [save] and [Init]: a case for every failure a call
    may answer and for what each path looked up holds. *)
Ltac save_cases Marshal :=
  repeat first
    [ progress fs_simpl
    | match goal with
      | |- context [if ?b then _ else _] => is_var b; destruct b
      | |- context [match ?o with Some _ => _ | None => _ end] =>
          is_var o; destruct o
      | |- context [match ?m !! ?k with _ => _ end] =>
          let E := fresh "E" in destruct (m !! k) as [[? |] |] eqn:E
      | |- context [match Marshal ?m with _ => _ end] =>
          let E := fresh "E" in destruct (Marshal m) eqn:E
      end ].

(** The conditions on the fields of a concrete line. *)
Ltac well_formed :=
  repeat first
    [ apply List.Forall_nil
    | apply List.Forall_cons
    | split
    | discriminate
    | reflexivity
    | (left; reflexivity)
    | (right; reflexivity)
    | (let c := fresh "c" in
       let H := fresh "H" in
       intros c H; injection H as <-; reflexivity) ].

(** * Properties *)

(** ** The ledger *)

Section LedgerFacts.

Import Collections Tail.

Implicit Types (rec : gmap string LogRange) (req : updateRequest).
Implicit Types (reqs : list updateRequest) (path : string).
Implicit Types (cur cand v : LogRange).

(** The guard of the code accepts exactly when the five rules store the
    candidate. *)
Lemma reconcile_updateAccepted cur cand :
  reconcile cur cand = if updateAccepted cur cand then cand else cur.
Proof.
  unfold reconcile, updateAccepted.
  rewrite (Z.eqb_sym (Inode cand) (Inode cur)).
  destruct (Inode cur =? Inode cand); simpl; [| reflexivity].
  destruct (negb (Written cur) && (SeekStart cur >=? SeekStart cand));
    simpl; [reflexivity |].
  destruct (Written cur && (SeekEnd cand >=? SeekEnd cur));
    simpl; reflexivity.
Qed.

Lemma handleRequest_same rec req cur :
  rec !! FilePath req = Some cur ->
  handleRequest rec req !! FilePath req = Some (reconcile cur (Value req)).
Proof.
  intros Hcur. unfold handleRequest, Get, Set_.
  rewrite Hcur, reconcile_updateAccepted. simpl.
  destruct (updateAccepted cur (Value req)).
  - apply lookup_insert_eq.
  - exact Hcur.
Qed.

Lemma handleRequest_other rec req path :
  FilePath req <> path ->
  handleRequest rec req !! path = rec !! path.
Proof.
  intros Hne. unfold handleRequest, Set_.
  destruct (updateAccepted _ _); [| reflexivity].
  by apply lookup_insert_ne.
Qed.

Lemma candidatesFor_cons_same req reqs :
  candidatesFor (FilePath req) (req :: reqs)
  = Value req :: candidatesFor (FilePath req) reqs.
Proof. unfold candidatesFor. by rewrite filter_cons_True. Qed.

Lemma candidatesFor_cons_other path req reqs :
  FilePath req <> path ->
  candidatesFor path (req :: reqs) = candidatesFor path reqs.
Proof. intros Hne. unfold candidatesFor. by rewrite filter_cons_False. Qed.

(** C1: for every ledger entry and every finite sequence of update
    requests handled in arrival order, the range stored for the entry's
    path at the end is the one the five ordered reconciliation rules
    predict from the entry and the candidates sent for that path. *)
Theorem goReadRequests_follows_rules rec reqs path cur :
  rec !! path = Some cur ->
  goReadRequests rec reqs !! path
  = Some (predicted cur (candidatesFor path reqs)).
Proof.
  revert rec cur. induction reqs as [| req reqs IH]; intros rec cur Hcur.
  - exact Hcur.
  - unfold goReadRequests, predicted in *. simpl fold_left at 1.
    destruct (decide (FilePath req = path)) as [<- | Hne].
    + rewrite candidatesFor_cons_same. simpl.
      apply IH. by apply handleRequest_same.
    + rewrite candidatesFor_cons_other by done.
      apply IH. by rewrite handleRequest_other.
Qed.

End LedgerFacts.

Section LedgerScenarios.

Import Collections Tail Examples.

Implicit Types (rec : gmap string LogRange) (path : string).
Implicit Types (cur cand v : LogRange).

(** The rules on the example ledger and requests. *)
Lemma goReadRequests_follows_rules_witness :
  exampleLedger !! "/var/log/app.log"%string
  = Some (mkLogRange 5 0 100 true)
  /\ goReadRequests exampleLedger exampleRequests
       !! "/var/log/app.log"%string
     = Some (predicted (mkLogRange 5 0 100 true)
               (candidatesFor "/var/log/app.log" exampleRequests)).
Proof.
  split; [reflexivity |].
  apply (goReadRequests_follows_rules exampleLedger exampleRequests
           "/var/log/app.log" (mkLogRange 5 0 100 true)).
  reflexivity.
Defined.

(** The same prediction for a path the ledger has not seen: the rules
    then start from Go's zero value of the range. *)
Lemma goReadRequests_follows_rules_from_zero rec reqs path :
  Get (goReadRequests rec reqs) path
  = predicted (Get rec path) (candidatesFor path reqs).
Proof.
  revert rec. induction reqs as [| req reqs IH]; intros rec; [done |].
  unfold goReadRequests, predicted in *. simpl fold_left at 1.
  rewrite IH. destruct (decide (FilePath req = path)) as [<- | Hne].
  - rewrite candidatesFor_cons_same. simpl. f_equal.
    unfold handleRequest, Get at 1, Set_.
    rewrite reconcile_updateAccepted.
    destruct (updateAccepted _ _); [| done].
    by rewrite lookup_insert_eq.
  - rewrite candidatesFor_cons_other by done. f_equal.
    unfold Get. by rewrite handleRequest_other.
Qed.

Lemma updateAccepted_refl_written v :
  Written v = true -> updateAccepted v v = true.
Proof.
  intros Hw. unfold updateAccepted. rewrite Hw. simpl.
  rewrite Z.eqb_refl. simpl.
  replace (SeekEnd v >=? SeekEnd v) with true; [done |].
  symmetry. rewrite Z.geb_leb. apply Z.leb_refl.
Qed.

Lemma updateAccepted_refl v : updateAccepted v v = true.
Proof.
  destruct (Written v) eqn:Hw; [by apply updateAccepted_refl_written |].
  unfold updateAccepted. rewrite Hw, Z.eqb_refl. simpl.
  replace (SeekStart v >=? SeekStart v) with true; [done |].
  symmetry. rewrite Z.geb_leb. apply Z.leb_refl.
Qed.

(** C2: replaying a confirmed update twice in a row for one path stores
    what replaying it once stores, and handling a confirmed candidate
    that equals the stored range leaves the ledger as it was. *)
Theorem handleRequest_confirmed_idempotent rec path v :
  Written v = true ->
  handleRequest (handleRequest rec (mkUpdateRequest path v))
    (mkUpdateRequest path v)
  = handleRequest rec (mkUpdateRequest path v)
  /\ (rec !! path = Some v ->
      handleRequest rec (mkUpdateRequest path v) = rec).
Proof.
  intros Hw.
  assert (Hid : forall m : gmap string LogRange,
             m !! path = Some v ->
             handleRequest m (mkUpdateRequest path v) = m).
  { intros m Hm. unfold handleRequest, Get, Set_. simpl. rewrite Hm. simpl.
    rewrite updateAccepted_refl_written by done. by apply insert_id. }
  split; [| apply Hid].
  destruct (updateAccepted (Get rec path) v) eqn:Hacc.
  - apply Hid. unfold handleRequest, Set_. simpl. rewrite Hacc.
    apply lookup_insert_eq.
  - unfold handleRequest. simpl. by rewrite !Hacc.
Qed.

(** The confirmed range of the example ledger, replayed. *)
Lemma handleRequest_confirmed_idempotent_witness :
  Written (mkLogRange 5 0 100 true) = true
  /\ handleRequest
       (handleRequest exampleLedger
          (mkUpdateRequest "/var/log/app.log" (mkLogRange 5 0 100 true)))
       (mkUpdateRequest "/var/log/app.log" (mkLogRange 5 0 100 true))
     = handleRequest exampleLedger
         (mkUpdateRequest "/var/log/app.log" (mkLogRange 5 0 100 true)).
Proof.
  split; [reflexivity |].
  exact (proj1 (handleRequest_confirmed_idempotent exampleLedger
                  "/var/log/app.log" (mkLogRange 5 0 100 true) eq_refl)).
Defined.

(** C3: from a path without a ledger entry and for any one file
    identity, unconfirmed [0,100), then confirmed [0,50), then confirmed
    [0,100) leave confirmed [0,100) stored for the path. *)
Theorem goReadRequests_scenarioB rec path inode :
  rec !! path = None ->
  goReadRequests rec (scenarioB path inode) !! path
  = Some (mkLogRange inode 0 100 true).
Proof.
  intros Hnone. unfold goReadRequests, scenarioB. simpl.
  assert (H1 : handleRequest rec
                 (mkUpdateRequest path (mkLogRange inode 0 100 false))
               !! path = Some (mkLogRange inode 0 100 false)).
  { unfold handleRequest, Get, Set_, updateAccepted. simpl.
    rewrite Hnone. simpl. rewrite orb_true_r. simpl.
    apply lookup_insert_eq. }
  pose proof (handleRequest_same _
                (mkUpdateRequest path (mkLogRange inode 0 50 true)) _ H1)
    as H2.
  simpl in H2.
  assert (E2 : reconcile (mkLogRange inode 0 100 false)
                 (mkLogRange inode 0 50 true)
               = mkLogRange inode 0 50 true).
  { unfold reconcile. simpl. rewrite Z.eqb_refl. reflexivity. }
  rewrite E2 in H2.
  pose proof (handleRequest_same _
                (mkUpdateRequest path (mkLogRange inode 0 100 true)) _ H2)
    as H3.
  simpl in H3. rewrite H3. f_equal.
  unfold reconcile. simpl. rewrite Z.eqb_refl. reflexivity.
Qed.

(** The scenario on an empty ledger, for inode 42. *)
Lemma goReadRequests_scenarioB_witness :
  (∅ : gmap string LogRange) !! "/var/log/app.log"%string = None
  /\ goReadRequests ∅ (scenarioB "/var/log/app.log" 42)
       !! "/var/log/app.log"%string
     = Some (mkLogRange 42 0 100 true).
Proof.
  split; [reflexivity |].
  apply (goReadRequests_scenarioB ∅ "/var/log/app.log" 42).
  reflexivity.
Defined.

(** C5: [GetData] answers the sentinel range of identity -1 and zero
    seeks for a path that was never recorded, and exactly the stored
    range for a path that has one. *)
Theorem GetData_sentinel_or_stored rec path :
  (rec !! path = None -> GetData rec path = mkLogRange (-1) 0 0 false)
  /\ (forall v, rec !! path = Some v -> GetData rec path = v).
Proof.
  unfold GetData, GetWithTest.
  split; [intros -> | intros v ->]; reflexivity.
Qed.

(** A path the example ledger lacks and the path it holds. *)
Lemma GetData_sentinel_or_stored_witness :
  GetData exampleLedger "/var/log/none.log" = mkLogRange (-1) 0 0 false
  /\ GetData exampleLedger "/var/log/app.log" = mkLogRange 5 0 100 true.
Proof.
  destruct (GetData_sentinel_or_stored exampleLedger "/var/log/none.log")
    as [Hnone _].
  destruct (GetData_sentinel_or_stored exampleLedger "/var/log/app.log")
    as [_ Hsome].
  split; [apply Hnone | apply Hsome]; reflexivity.
Defined.

End LedgerScenarios.

Section ResetFileFacts.

Import Collections Tail Examples.

Implicit Types (rec : gmap string LogRange) (path : string).

(** [ResetFile] answers the inode of the stat and enqueues the confirmed
    zero range of that inode. *)
Lemma ResetFile_returns_stat_inode (Error : Type)
    (GetFileProps : string -> (Z * Z) + Error) path inode other :
  GetFileProps path = inl (inode, other) ->
  ResetFile Error GetFileProps path
  = ((inode, None), [mkUpdateRequest path (mkLogRange inode 0 0 true)]).
Proof. intros H. unfold ResetFile. by rewrite H. Qed.

(** When the guard of [goReadRequests] lets a reset through. *)
Lemma updateAccepted_reset (cur : LogRange) (inode : Z) :
  updateAccepted cur (mkLogRange inode 0 0 true)
  = negb (Inode cur =? inode)
    || (if Written cur then SeekEnd cur <=? 0 else 0 <=? SeekStart cur).
Proof.
  unfold updateAccepted. simpl. rewrite !Z.geb_leb.
  destruct (Inode cur =? inode), (Written cur); simpl;
    rewrite ?orb_false_r; reflexivity.
Qed.

(** The enqueued reset is stored when the file was replaced, when the
    entry is unconfirmed, or when no progress is confirmed yet. *)
Lemma ResetFile_stored (Error : Type)
    (GetFileProps : string -> (Z * Z) + Error) rec path inode other :
  GetFileProps path = inl (inode, other) ->
  Inode (Get rec path) <> inode
  \/ (Written (Get rec path) = false /\ 0 <= SeekStart (Get rec path))
  \/ (Written (Get rec path) = true /\ SeekEnd (Get rec path) <= 0) ->
  goReadRequests rec (snd (ResetFile Error GetFileProps path)) !! path
  = Some (mkLogRange inode 0 0 true).
Proof.
  intros Hstat Hcase.
  rewrite (ResetFile_returns_stat_inode _ _ _ _ _ Hstat). simpl.
  unfold goReadRequests, handleRequest, Set_. simpl.
  rewrite updateAccepted_reset.
  replace (negb _ || _) with true; [apply lookup_insert_eq |].
  symmetry. destruct Hcase as [Hne | [[Hw Hs] | [Hw He]]].
  - apply Z.eqb_neq in Hne. by rewrite Hne.
  - rewrite Hw. apply orb_true_iff. right. by apply Z.leb_le.
  - rewrite Hw. apply orb_true_iff. right. by apply Z.leb_le.
Qed.

(** The enqueued reset is dropped when the entry holds confirmed progress
    of the same inode. *)
Lemma ResetFile_dropped (Error : Type)
    (GetFileProps : string -> (Z * Z) + Error) rec path cur other :
  GetFileProps path = inl (Inode cur, other) ->
  rec !! path = Some cur ->
  Written cur = true ->
  0 < SeekEnd cur ->
  goReadRequests rec (snd (ResetFile Error GetFileProps path)) = rec.
Proof.
  intros Hstat Hcur Hw He.
  rewrite (ResetFile_returns_stat_inode _ _ _ _ _ Hstat). simpl.
  unfold goReadRequests, handleRequest, Get. simpl.
  rewrite Hcur. simpl. rewrite updateAccepted_reset, Hw, Z.eqb_refl. simpl.
  replace (SeekEnd cur <=? 0) with false; [done |].
  symmetry. apply Z.leb_gt. exact He.
Qed.

(** C4: on a path whose ledger entry is the confirmed range [0,100) of
    inode 5 and whose stat answers inode 5, [ResetFile] returns 5 and nil,
    and once its request is handled the entry is still the confirmed range
    [0,100), not the confirmed zero range. *)
Theorem ResetFile_same_inode_keeps_progress :
  fst (ResetFile string statInode5 "/var/log/app.log") = (5, None)
  /\ goReadRequests exampleLedger
       (snd (ResetFile string statInode5 "/var/log/app.log"))
       !! "/var/log/app.log"%string
     = Some (mkLogRange 5 0 100 true).
Proof. split; reflexivity. Qed.

(** A reset of a rotated file is stored: the entry of inode 5 gives way to
    the zero range of the inode the stat answers. *)
Lemma ResetFile_after_rotation (Error : Type)
    (GetFileProps : string -> (Z * Z) + Error) rec path cur inode other :
  GetFileProps path = inl (inode, other) ->
  rec !! path = Some cur ->
  Inode cur = 5 ->
  inode <> 5 ->
  goReadRequests rec (snd (ResetFile Error GetFileProps path)) !! path
  = Some (mkLogRange inode 0 0 true).
Proof.
  intros Hstat Hcur H5 Hne. apply (ResetFile_stored _ _ _ _ _ _ Hstat).
  left. unfold Get. rewrite Hcur. simpl. congruence.
Qed.

End ResetFileFacts.

(** ** Saving the worklog *)

Section SaveFacts.

Import Os Worklog.

Implicit Types (fs : gmap string node) (evs pre post : list event).




End SaveFacts.

Section SaveExamples.

Import Os Worklog Examples.

(** The calls of a save over an existing store file when nothing fails. *)
Example save_trace_with_store :
  save exampleMarshal noFaults exampleWorklog (mkWorld exampleFiles [])
  = (None,
     mkWorld
       (<["/wl/app.json"%string := RegularFile "{new}"]>
          (<["/wl/app.json.bak"%string := RegularFile "{old}"]>
             exampleFiles))
       [ EvStat "/wl/app.json"; EvCreateTrunc "/wl/app.json.bak";
         EvOpen "/wl/app.json"; EvAppend "/wl/app.json.bak" "{old}";
         EvClose "/wl/app.json"; EvClose "/wl/app.json.bak";
         EvCreateTrunc "/wl/app.json"; EvAppend "/wl/app.json" "{new}";
         EvClose "/wl/app.json" ]).
Proof. vm_compute. reflexivity. Qed.

(** The calls of a first save: no store file, no backup. *)
Example save_trace_without_store :
  save exampleMarshal noFaults exampleWorklog (mkWorld ∅ [])
  = (None,
     mkWorld {[ "/wl/app.json"%string := RegularFile "{new}" ]}
       [ EvStat "/wl/app.json"; EvCreateTrunc "/wl/app.json";
         EvAppend "/wl/app.json" "{new}"; EvClose "/wl/app.json" ]).
Proof. vm_compute. reflexivity. Qed.

(** A copy that fails half way leaves the store as it was. *)
Example save_trace_copy_fails :
  let env := mkFaults false false false false (Some 2%nat) false None in
  let result := save exampleMarshal env exampleWorklog
                  (mkWorld exampleFiles []) in
  fst result = Some "failed to save worklog: write failed"%string
  /\ files (snd result) !! "/wl/app.json"%string
     = Some (RegularFile "{old}")
  /\ files (snd result) !! "/wl/app.json.bak"%string
     = Some (RegularFile "{o").
Proof. vm_compute. repeat split. Qed.

(** Why the two paths must differ, as [NewWorklog] makes them: were the
    backup path the store path, the store would be truncated before
    anything is copied and the old content lost. *)
Example save_same_paths_loses_old_content :
  let w := mkWorklog ∅ None "/wl/app.json" "/wl/app.json" false in
  let result := save (fun _ => inr "marshal failed"%string) noFaults w
                  (mkWorld exampleFiles []) in
  fst result = Some "marshal failed"%string
  /\ files (snd result) !! "/wl/app.json"%string = Some (RegularFile "").
Proof. vm_compute. split; reflexivity. Qed.


End SaveExamples.

(** ** The life cycle of the worklog *)

Section LifeCycleFacts.

Import Os Worklog Examples.

Variable Marshal : gmap string LogRange -> string + Error.
Variable NewConcurrentMapFromJSON :
  string -> gmap string LogRange * option Error.

(** [Init] on an initialized worklog panics, whatever the files are. *)
Lemma Init_initialized_panics env w world :
  initialized w = true ->
  Init NewConcurrentMapFromJSON env w world
  = Panic "Worklog already initialized".
Proof. intros H. unfold Init. by rewrite H. Qed.

(** [Init] on a worklog that is not initialized returns. *)
Lemma Init_fresh_returns env w world :
  initialized w = false ->
  exists r, Init NewConcurrentMapFromJSON env w world = Return r.
Proof.
  intros H. unfold Init. rewrite H.
  destruct (bool_decide _); [eauto |].
  destruct (IsFile _ _ _) as [[[] | err] world1]; [| eauto | eauto].
  destruct (ReadFile _ _ _) as [[wlData | err] world2]; [| eauto].
  destruct (0 <? String.length wlData)%nat; [| eauto].
  destruct (NewConcurrentMapFromJSON wlData) as [m [err |]]; eauto.
Qed.

(** A successful [Init] leaves the flag set and a fresh open channel. *)
Lemma Init_success_state env w world w1 world1 :
  Init NewConcurrentMapFromJSON env w world = Return (None, w1, world1) ->
  initialized w1 = true /\ updRequests w1 = Some ChanOpen.
Proof.
  unfold Init. destruct (initialized w); [discriminate |].
  destruct (bool_decide _); [discriminate |].
  destruct (IsFile _ _ _) as [[[] | err] world2]; [| | discriminate].
  - destruct (ReadFile _ _ _) as [[wlData | err] world3]; [| discriminate].
    destruct (0 <? String.length wlData)%nat.
    + destruct (NewConcurrentMapFromJSON wlData) as [m [err |]];
        [discriminate |].
      intros [= <- _]. by split.
    + intros [= <- _]. by split.
  - intros [= <- _]. by split.
Qed.

(** [Close] of a worklog whose channel is open returns and clears the
    flag. *)
Lemma Close_open_returns env w world :
  updRequests w = Some ChanOpen ->
  exists w2 world2,
    Close Marshal env w world = Return (w2, world2)
    /\ initialized w2 = false.
Proof.
  intros H. unfold Close. rewrite H.
  destruct (save _ _ _ _) as [err world2]. eauto.
Qed.

(** C9: once [Init] has completed successfully, a second [Init] without a
    [Close] in between panics with "Worklog already initialized"; [Close]
    then returns with the flag reset, after which [Init] returns rather
    than panics. *)
Theorem Init_twice_panics_unless_closed env w world w1 world1 :
  Init NewConcurrentMapFromJSON env w world = Return (None, w1, world1) ->
  (forall env' world',
      Init NewConcurrentMapFromJSON env' w1 world'
      = Panic "Worklog already initialized")
  /\ (forall env' world',
        exists w2 world2,
          Close Marshal env' w1 world' = Return (w2, world2)
          /\ initialized w2 = false
          /\ forall env'' world'',
               exists r,
                 Init NewConcurrentMapFromJSON env'' w2 world''
                 = Return r).
Proof.
  intros Hinit. destruct (Init_success_state _ _ _ _ _ Hinit) as [Hi Hch].
  split.
  - intros env' world'. by apply Init_initialized_panics.
  - intros env' world'.
    destruct (Close_open_returns env' w1 world' Hch)
      as (w2 & world2 & Hclose & Hflag).
    exists w2, world2. repeat split; [done | done |].
    intros env'' world''. by apply Init_fresh_returns.
Qed.

End LifeCycleFacts.

Section LifeCycleExamples.

Import Os Worklog Examples.

(** The worklog a successful [Init] over the example files leaves. *)
Example Init_example :
  Init exampleUnmarshal noFaults exampleWorklog (mkWorld exampleFiles [])
  = Return
      (None,
       mkWorklog exampleLedger (Some ChanOpen) "/wl/app.json"
         "/wl/app.json.bak" true,
       mkWorld exampleFiles
         [EvStat "/wl/app.json"; EvReadFile "/wl/app.json"]).
Proof. vm_compute. reflexivity. Qed.

(** The worklog the example [Init] leaves panics on a second [Init]. *)
Lemma Init_twice_panics_unless_closed_witness :
  Init exampleUnmarshal noFaults
    (mkWorklog exampleLedger (Some ChanOpen) "/wl/app.json"
       "/wl/app.json.bak" true)
    (mkWorld exampleFiles [])
  = Panic "Worklog already initialized".
Proof.
  exact (proj1 (Init_twice_panics_unless_closed exampleMarshal
                  exampleUnmarshal noFaults exampleWorklog
                  (mkWorld exampleFiles []) _ _ Init_example)
           noFaults (mkWorld exampleFiles [])).
Defined.

End LifeCycleExamples.

(** ** The per-line handler *)

Section OnEntryFacts.

Import TailProcessor.

Variables InputRecord OutputRecord Error Buffer : Type.
Variable ParseLine : string -> Z -> InputRecord + Error.
Variable isLineParsingError : Error -> bool.
Variable IsProcessable : InputRecord -> bool.
Variable Preprocess :
  InputRecord -> Buffer -> (list InputRecord + Error) * Buffer.
Variable AddRecord : InputRecord -> Buffer -> Buffer.
Variable Transform : InputRecord -> OutputRecord + Error.
Variable applyLocation : InputRecord -> OutputRecord -> OutputRecord.
Variable GetTime : OutputRecord -> Time.Time.

Abbreviation state := (procState OutputRecord Buffer).
Abbreviation loop :=
  (forPrepInp InputRecord OutputRecord Error Buffer AddRecord Transform
     applyLocation GetTime).
Abbreviation outputs :=
  (boundOutputs InputRecord OutputRecord Error Transform applyLocation).
Abbreviation accepted :=
  (transforms InputRecord OutputRecord Error Transform).

(** The loop up to the first record [Transform] rejects: the records before
    it are sent to the output channel, then one message is sent to the
    ignored channel and the loop is left. *)
Lemma forPrepInp_until_failure filePath logPosition ok failing rest
    (st : state) :
  Forall (fun r => accepted r = true) ok ->
  accepted failing = false ->
  let st' := loop filePath logPosition (ok ++ failing :: rest) st in
  Ignored _ _ st'
  = Ignored _ _ st ++ [NewIgnoredItemMsg filePath logPosition]
  /\ Elastic _ _ st' = Elastic _ _ st ++ outputs filePath logPosition ok.
Proof.
  intros Hok Hfail. revert st.
  induction Hok as [| r ok Hr Hok IH]; intros st; simpl.
  - unfold transforms in Hfail.
    destruct (Transform failing) as [out | err]; [discriminate |].
    simpl. by rewrite app_nil_r.
  - unfold transforms in Hr. unfold boundOutputs. simpl.
    destruct (Transform r) as [out | err]; [| discriminate].
    destruct (IH (ping OutputRecord Buffer filePath
                    (GetTime (applyLocation r out))
                    (sendElastic OutputRecord Buffer
                       (mkBoundOutputRecord OutputRecord filePath
                          (applyLocation r out) logPosition)
                       (setBuffer OutputRecord Buffer
                          (AddRecord r (logBuffer _ _ st)) st))))
      as [HI HE].
    simpl in HI, HE. split; [exact HI |].
    rewrite HE. by rewrite <- app_assoc.
Qed.

(** The loop over records that all transform sends their outputs and
    nothing to the ignored channel. *)
Lemma forPrepInp_all_transform filePath logPosition recs (st : state) :
  Forall (fun r => accepted r = true) recs ->
  let st' := loop filePath logPosition recs st in
  Ignored _ _ st' = Ignored _ _ st
  /\ Elastic _ _ st' = Elastic _ _ st ++ outputs filePath logPosition recs.
Proof.
  intros Hok. revert st.
  induction Hok as [| r ok Hr Hok IH]; intros st; simpl.
  - by rewrite app_nil_r.
  - unfold transforms in Hr. unfold boundOutputs. simpl.
    destruct (Transform r) as [out | err]; [| discriminate].
    destruct (IH (ping OutputRecord Buffer filePath
                    (GetTime (applyLocation r out))
                    (sendElastic OutputRecord Buffer
                       (mkBoundOutputRecord OutputRecord filePath
                          (applyLocation r out) logPosition)
                       (setBuffer OutputRecord Buffer
                          (AddRecord r (logBuffer _ _ st)) st))))
      as [HI HE].
    simpl in HI, HE. split; [exact HI |].
    rewrite HE. by rewrite <- app_assoc.
Qed.

(** C8: a line the parser rejects, and a line whose [Preprocess] fails,
    add exactly one message of the file path and the line's range to the
    ignored channel and nothing to the output channel; a line on which
    [Transform] rejects a record adds exactly one such message too, after
    the output records of the records transformed before the rejected one.
    [OnEntry] has no error result: it ends by returning the state. *)
Theorem OnEntry_failure_is_ignored filePath (st : state) item logPosition :
  let st' :=
    OnEntry InputRecord OutputRecord Error Buffer ParseLine
      isLineParsingError IsProcessable Preprocess AddRecord Transform
      applyLocation GetTime filePath st item logPosition in
  let msg := NewIgnoredItemMsg filePath logPosition in
  (forall err,
      ParseLine item (-1) = inr err ->
      Ignored _ _ st' = Ignored _ _ st ++ [msg]
      /\ Elastic _ _ st' = Elastic _ _ st)
  /\ (forall parsed err buf,
        ParseLine item (-1) = inl parsed ->
        IsProcessable parsed = true ->
        Preprocess parsed (logBuffer _ _ st) = (inr err, buf) ->
        Ignored _ _ st' = Ignored _ _ st ++ [msg]
        /\ Elastic _ _ st' = Elastic _ _ st)
  /\ (forall parsed buf ok failing rest,
        ParseLine item (-1) = inl parsed ->
        IsProcessable parsed = true ->
        Preprocess parsed (logBuffer _ _ st)
        = (inl (ok ++ failing :: rest), buf) ->
        Forall (fun r => transforms _ _ _ Transform r = true) ok ->
        transforms _ _ _ Transform failing = false ->
        Ignored _ _ st' = Ignored _ _ st ++ [msg]
        /\ Elastic _ _ st'
           = Elastic _ _ st
             ++ boundOutputs _ _ _ Transform applyLocation filePath
                  logPosition ok).
Proof.
  simpl. unfold OnEntry. split; [| split].
  - intros err Hparse. by rewrite Hparse.
  - intros parsed err buf Hparse Hproc Hpre.
    by rewrite Hparse, Hproc, Hpre.
  - intros parsed buf ok failing rest Hparse Hproc Hpre Hok Hfail.
    rewrite Hparse, Hproc, Hpre.
    exact (forPrepInp_until_failure filePath logPosition ok failing rest
             (setBuffer OutputRecord Buffer buf st) Hok Hfail).
Qed.

End OnEntryFacts.

Section OnEntryExamples.

Import TailProcessor Examples.

(** A line whose second preprocessed record is rejected by [Transform]:
    the output record of the first one is already on the output channel
    when the line is reported as ignored. *)
Lemma OnEntry_output_before_transform_failure :
  let pos := mkLogRange 5 0 10 false in
  let st' := exOnEntry "/var/log/app.log" exProcState "a line" pos in
  exPreprocess 0 [] = (inl [1; 2]%nat, [])
  /\ exTransform 2 = inr "rejected"%string
  /\ Ignored _ _ st' = [NewIgnoredItemMsg "/var/log/app.log" pos]
  /\ Elastic _ _ st' = [mkBoundOutputRecord nat "/var/log/app.log" 1%nat pos]
  /\ Elastic _ _ st' <> Elastic _ _ exProcState.
Proof. vm_compute. repeat split. discriminate. Qed.

(** The example line: one output record, then one ignored message. *)
Lemma OnEntry_failure_is_ignored_witness :
  let pos := mkLogRange 5 0 10 false in
  let st' := exOnEntry "/var/log/app.log" exProcState "a line" pos in
  Ignored _ _ st' = [NewIgnoredItemMsg "/var/log/app.log" pos]
  /\ Elastic _ _ st' = [mkBoundOutputRecord nat "/var/log/app.log" 1%nat pos].
Proof.
  pose proof (OnEntry_failure_is_ignored nat nat string (list nat)
                exParseLine (fun _ => true) (fun _ => true) exPreprocess
                cons exTransform (fun _ out => out) (fun _ => Time.zero)
                "/var/log/app.log" exProcState "a line"
                (mkLogRange 5 0 10 false)) as H.
  cbv zeta in H. destruct H as (_ & _ & H).
  refine (H 0%nat [] [1%nat] 2%nat [] eq_refl eq_refl eq_refl _ eq_refl).
  repeat constructor.
Defined.

End OnEntryExamples.

(** ** The mapka3 [Preprocess] *)

Section Mapka3Facts.

Import Mapka3.

Variables InputRecord Buffer Float : Type.
Variable ClusteringClientID : InputRecord -> string.
Variable GetTime : InputRecord -> Time.Time.
Variable GetLastCheck : Buffer -> string -> Time.Time.
Variable ForEach : Buffer -> string -> list InputRecord.
Variable RemoveAnalyzedRecords : Buffer -> string -> Time.Time -> Buffer.
Variable ConfirmRecordCheck : Buffer -> InputRecord -> Buffer.
Variable Analyze : Z -> Float -> list InputRecord -> list InputRecord.

(** Appending each visited record to an empty slice collects the records
    in the order of the visit. *)
Lemma fold_append_collects (A : Type) (visited acc : list A) :
  fold_left (fun items item => items ++ [item]) visited acc
  = acc ++ visited.
Proof.
  revert acc. induction visited as [| x xs IH]; intros acc; simpl.
  - by rewrite app_nil_r.
  - rewrite IH. by rewrite <- app_assoc.
Qed.

Lemma collectItems_ForEach prevRecs key :
  collectItems InputRecord Buffer ForEach prevRecs key = ForEach prevRecs key.
Proof. unfold collectItems. by rewrite fold_append_collects. Qed.

Lemma length_pos_nonempty (A : Type) (l : list A) :
  (0 <? length l)%nat = negb (bool_decide (l = [])).
Proof. by destruct l. Qed.


(** For an interval that fits a [Duration], the test of [Preprocess] is
    the comparison of the elapsed time with the interval in seconds. *)
Lemma analysisDue_in_range (t : Transformer Float) (rec : InputRecord)
    (prevRecs : Buffer) :
  0 <= AnalysisIntervalSecs Float (bufferConf Float t) <= 9223372036 ->
  analysisDue InputRecord Buffer Float ClusteringClientID GetTime
    GetLastCheck t rec prevRecs = true
  <-> AnalysisIntervalSecs Float (bufferConf Float t) * 1000000000
      < GetTime rec - GetLastCheck prevRecs (ClusteringClientID rec).
Proof.
  intros Hrange. unfold analysisDue, analysisInterval, Time.Sub, Time.wrap64,
    Time.minDuration, Time.maxDuration, Time.Second.
  set (secs := AnalysisIntervalSecs Float (bufferConf Float t)) in *.
  set (d := GetTime rec - GetLastCheck prevRecs (ClusteringClientID rec)).
  replace ((secs + 2 ^ 63) mod 2 ^ 64 - 2 ^ 63) with secs
    by (rewrite Z.mod_small; lia).
  replace ((secs * 1000000000 + 2 ^ 63) mod 2 ^ 64 - 2 ^ 63)
    with (secs * 1000000000) by (rewrite Z.mod_small; lia).
  rewrite Z.ltb_lt.
  destruct (Z.ltb_spec d (- 2 ^ 63)); [lia |].
  destruct (Z.ltb_spec (2 ^ 63 - 1) d); lia.
Qed.

End Mapka3Facts.

Section Mapka3Examples.

Import Mapka3 Examples.

(** A record of client "c1", 90 seconds after Go's zero time, over a
    buffer of two records of "c1" never checked: the window is analyzed,
    its representative replaces the record, the two records are evicted
    and the check is stamped. *)
Example Preprocess_example_clusters :
  exPreprocessMapka3 exTransformer (mkExRecord "c1" 90000000000)
    exBufferTwo
  = ([mkExRecord "c1" 1000000000],
     mkExBuffer [] {[ "c1"%string := 90000000000 ]}).
Proof. vm_compute. reflexivity. Qed.

(** The same record 30 seconds after the zero time passes through. *)
Example Preprocess_example_passes :
  exPreprocessMapka3 exTransformer (mkExRecord "c1" 30000000000)
    exBufferTwo
  = ([mkExRecord "c1" 30000000000], exBufferTwo).
Proof. vm_compute. reflexivity. Qed.


End Mapka3Examples.

(** ** The kontext018 input record *)

Section Kontext018Facts.

Import Worklog Kontext018.

Variable ConvertDatetimeStringWithMillisNoTZ : string -> Time.Time.
Variable ConvertDatetimeStringWithMillis : string -> Time.Time.

(** C10: for a record that is not processable [GetTime] returns the zero
    time, whatever the converters do and whatever its [Date] holds: the
    [Date] is neither indexed nor handed to a converter. *)
Theorem GetTime_unprocessable_is_zero (rec : InputRecord) :
  IsProcessable rec = false ->
  GetTime ConvertDatetimeStringWithMillisNoTZ
    ConvertDatetimeStringWithMillis rec = Return Time.zero
  /\ forall d,
       GetTime ConvertDatetimeStringWithMillisNoTZ
         ConvertDatetimeStringWithMillis (withDate d rec)
       = Return Time.zero.
Proof.
  unfold IsProcessable, GetTime. intros H. split.
  - by rewrite H.
  - intros d. simpl. by rewrite H.
Qed.

(** A processable record has its [Date] inspected: an empty one makes
    the indexing panic, one ending in Z goes to the converter without
    time zone, any other to the converter with millisecond precision. *)
Lemma GetTime_processable (rec : InputRecord) :
  IsProcessable rec = true ->
  GetTime ConvertDatetimeStringWithMillisNoTZ
    ConvertDatetimeStringWithMillis rec
  = match lastByte (Date rec) with
    | None => Panic "index out of range [-1]"
    | Some c =>
        if bool_decide (c = "Z"%char) then
          Return
            (ConvertDatetimeStringWithMillisNoTZ
               (String.substring 0 (String.length (Date rec) - 1)%nat
                  (Date rec) ++ "000")%string)
        else Return (ConvertDatetimeStringWithMillis (Date rec))
    end.
Proof.
  unfold IsProcessable, GetTime. intros H. rewrite H.
  by destruct (lastByte (Date rec)).
Qed.

End Kontext018Facts.

Section Kontext018Examples.

Import Worklog Kontext018 Examples.

(** The unreadable record has the zero time. *)
Lemma GetTime_unprocessable_is_zero_witness :
  IsProcessable exUnreadable = false
  /\ GetTime (fun _ => 1) (fun _ => 2) exUnreadable = Return Time.zero.
Proof.
  split; [reflexivity |].
  exact (proj1 (GetTime_unprocessable_is_zero (fun _ => 1) (fun _ => 2)
                  exUnreadable eq_refl)).
Defined.

(** A processable record with an empty date makes [GetTime] panic. *)
Example GetTime_empty_date_panics :
  GetTime (fun _ => 1) (fun _ => 2)
    (mkInputRecord "" "" "" "" 0 "" false false
       (mkRequest "" "" "" "" "") true)
  = Panic "index out of range [-1]".
Proof. reflexivity. Qed.

End Kontext018Examples.

(** * Further properties *)

(** ** The ledger under sequences of requests *)

Section LedgerSequences.

Import Collections Tail Ledger Examples MoreExamples.

Implicit Types (rec : gmap string LogRange) (req : updateRequest).
Implicit Types (reqs : list updateRequest) (path : string).
Implicit Types (cur cand v : LogRange).

Lemma handleRequest_dom rec req :
  dom rec ⊆ dom (handleRequest rec req)
  /\ dom (handleRequest rec req) ⊆ dom rec ∪ {[ FilePath req ]}.
Proof.
  unfold handleRequest, Set_. destruct (updateAccepted _ _).
  - rewrite dom_insert_L. set_solver.
  - set_solver.
Qed.


(** X2: the entry of a path that no request names is left as it was. *)
Theorem goReadRequests_frame rec reqs path :
  Forall (fun r => FilePath r <> path) reqs ->
  goReadRequests rec reqs !! path = rec !! path.
Proof.
  intros Hall. revert rec.
  induction Hall as [| req reqs Hne Hall IH]; intros rec; [done |].
  unfold goReadRequests in *. simpl fold_left.
  rewrite IH. by apply handleRequest_other.
Qed.

Lemma goReadRequests_frame_witness :
  goReadRequests exampleLedger
    [mkUpdateRequest "/var/log/other.log" (mkLogRange 9 0 40 true)]
    !! "/var/log/app.log"%string
  = exampleLedger !! "/var/log/app.log"%string.
Proof.
  apply goReadRequests_frame. repeat constructor. discriminate.
Defined.



(** A present entry stays present, holding what the rules predict. *)
Lemma goReadRequests_lookup_predicted rec reqs path cur :
  rec !! path = Some cur ->
  goReadRequests rec reqs !! path
  = Some (predicted cur (candidatesFor path reqs)).
Proof.
  intros Hcur.
  pose proof (goReadRequests_follows_rules_from_zero rec reqs path) as H.
  assert (Hin : path ∈ dom (goReadRequests rec reqs)).
  { assert (Hdom : path ∈ dom rec) by (apply elem_of_dom; by exists cur).
    clear H Hcur. revert rec Hdom.
    induction reqs as [| req reqs IH]; intros rec Hdom; [done |].
    unfold goReadRequests in *. simpl fold_left.
    destruct (handleRequest_dom rec req) as [Hsub _].
    apply IH, Hsub, Hdom. }
  apply elem_of_dom in Hin as [v Hv].
  unfold Get in H. rewrite Hv, Hcur in H. simpl in H. by rewrite Hv, H.
Qed.

(** Confirmed candidates of the entry's inode over a confirmed entry: the
    rules keep the farthest end. *)
Lemma predicted_confirmed cur cands :
  Written cur = true ->
  Forall (fun c => Written c = true /\ Inode c = Inode cur) cands ->
  Written (predicted cur cands) = true
  /\ Inode (predicted cur cands) = Inode cur
  /\ SeekEnd (predicted cur cands) = maxSeekEnd cur cands.
Proof.
  intros Hw Hall. revert cur Hw Hall.
  induction cands as [| c cands IH]; intros cur Hw Hall; [done |].
  inversion Hall as [| ? ? [Hcw Hci] Hrest]; subst.
  unfold predicted, maxSeekEnd in *. simpl.
  assert (Hstep : Written (reconcile cur c) = true
                  /\ Inode (reconcile cur c) = Inode cur
                  /\ SeekEnd (reconcile cur c)
                     = Z.max (SeekEnd cur) (SeekEnd c)).
  { rewrite reconcile_updateAccepted. unfold updateAccepted.
    rewrite Hw, Hcw, Hci, Z.eqb_refl. simpl.
    rewrite orb_false_r, Z.geb_leb.
    destruct (Z.leb_spec (SeekEnd cur) (SeekEnd c));
      repeat split; try done; lia. }
  destruct Hstep as (Hw' & Hi' & He').
  destruct (IH (reconcile cur c) Hw') as (H1 & H2 & H3).
  { eapply Forall_impl; [exact Hrest |]. intros x [? ?]. split; congruence. }
  repeat split; [done | congruence |]. by rewrite H3, He'.
Qed.

Lemma fold_max_le (l : list Z) (a b : Z) :
  a <= b -> fold_left Z.max l a <= fold_left Z.max l b.
Proof.
  revert a b. induction l as [| x l IH]; intros a b Hab; simpl; [done |].
  apply IH. lia.
Qed.

Lemma fold_max_swap (l : list Z) (a x y : Z) :
  fold_left Z.max l (Z.max (Z.max a x) y)
  = fold_left Z.max l (Z.max (Z.max a y) x).
Proof. f_equal. lia. Qed.

Lemma fold_max_perm (l l' : list Z) (a : Z) :
  l ≡ₚ l' -> fold_left Z.max l a = fold_left Z.max l' a.
Proof.
  intros Hp. revert a.
  induction Hp as [| x l l' Hp IH | x y l | l l' l'' _ IH1 _ IH2];
    intros a; simpl.
  - done.
  - apply IH.
  - apply fold_max_swap.
  - by rewrite IH1.
Qed.

(** X4: when the entry of a path is confirmed and every request for the
    path carries a confirmed range of the same inode, the entry ends
    confirmed, of that inode, with the farthest end among the entry and
    the candidates; requests arriving in another order end at the same
    position. *)
Theorem goReadRequests_confirmed_order_free rec reqs reqs' path cur :
  rec !! path = Some cur ->
  Written cur = true ->
  Forall (fun c => Written c = true /\ Inode c = Inode cur)
    (candidatesFor path reqs) ->
  reqs ≡ₚ reqs' ->
  exists v v',
    goReadRequests rec reqs !! path = Some v
    /\ goReadRequests rec reqs' !! path = Some v'
    /\ Written v = true /\ Inode v = Inode cur
    /\ SeekEnd v = maxSeekEnd cur (candidatesFor path reqs)
    /\ SeekEnd v' = SeekEnd v.
Proof.
  intros Hcur Hw Hall Hperm.
  assert (Hcands : candidatesFor path reqs ≡ₚ candidatesFor path reqs').
  { unfold candidatesFor. by rewrite Hperm. }
  assert (Hall' : Forall (fun c => Written c = true /\ Inode c = Inode cur)
                    (candidatesFor path reqs')).
  { by rewrite <- Hcands. }
  destruct (predicted_confirmed cur _ Hw Hall) as (H1 & H2 & H3).
  destruct (predicted_confirmed cur _ Hw Hall') as (_ & _ & H3').
  exists (predicted cur (candidatesFor path reqs)),
    (predicted cur (candidatesFor path reqs')).
  rewrite !(goReadRequests_lookup_predicted _ _ _ _ Hcur).
  repeat split; try done.
  rewrite H3, H3'. unfold maxSeekEnd. apply fold_max_perm.
  by rewrite Hcands.
Qed.

Lemma goReadRequests_confirmed_order_free_witness :
  exists v v',
    goReadRequests exampleLedger confirmedInOrder
      !! "/var/log/app.log"%string = Some v
    /\ goReadRequests exampleLedger confirmedOutOfOrder
         !! "/var/log/app.log"%string = Some v'
    /\ Written v = true /\ Inode v = 5
    /\ SeekEnd v
       = maxSeekEnd (mkLogRange 5 0 100 true)
           (candidatesFor "/var/log/app.log" confirmedInOrder)
    /\ SeekEnd v' = SeekEnd v.
Proof.
  apply (goReadRequests_confirmed_order_free exampleLedger confirmedInOrder
           confirmedOutOfOrder "/var/log/app.log"
           (mkLogRange 5 0 100 true)).
  - reflexivity.
  - reflexivity.
  - repeat constructor.
  - unfold confirmedInOrder, confirmedOutOfOrder.
    apply Permutation_swap.
Defined.

(** X5: the first update for a path, of a file whose inode is not 0, is
    stored, and [GetData] answers it. *)
Theorem GetData_after_first_update rec path v :
  rec !! path = None ->
  Inode v <> 0 ->
  GetData (goReadRequests rec (UpdateFileInfo path v)) path = v.
Proof.
  intros Hnone Hino.
  unfold UpdateFileInfo, goReadRequests, handleRequest, Get, Set_. simpl.
  rewrite Hnone. simpl.
  assert (Hacc : updateAccepted zeroLogRange v = true).
  { unfold updateAccepted. change (Inode zeroLogRange) with 0.
    destruct (Z.eqb_spec 0 (Inode v)) as [E | _]; [congruence | done]. }
  rewrite Hacc. unfold GetData, GetWithTest. by rewrite lookup_insert_eq.
Qed.

Lemma GetData_after_first_update_witness :
  GetData
    (goReadRequests exampleLedger
       (UpdateFileInfo "/var/log/new.log" (mkLogRange 7 200 300 true)))
    "/var/log/new.log"
  = mkLogRange 7 200 300 true.
Proof.
  apply GetData_after_first_update; [reflexivity | discriminate].
Defined.

(** X6: while the entry of a path is unconfirmed, confirmations of chunks
    of the same inode that start behind it are all dropped: the ledger
    stays on the unconfirmed chunk, however many later chunks are
    confirmed. *)
Theorem goReadRequests_unconfirmed_pins rec reqs path cur :
  rec !! path = Some cur ->
  Written cur = false ->
  Forall (fun c => Inode c = Inode cur /\ Written c = true
                   /\ SeekStart cur < SeekStart c)
    (candidatesFor path reqs) ->
  goReadRequests rec reqs !! path = Some cur.
Proof.
  intros Hcur Hw Hall.
  rewrite (goReadRequests_lookup_predicted _ _ _ _ Hcur). f_equal.
  induction Hall as [| c cands (Hi & Hcw & Hs) Hall IH]; [done |].
  unfold predicted in *. simpl.
  replace (reconcile cur c) with cur; [exact IH |].
  rewrite reconcile_updateAccepted. unfold updateAccepted.
  rewrite Hw, Hcw, Hi, Z.eqb_refl. simpl.
  replace (SeekStart cur >=? SeekStart c) with false; [done |].
  symmetry. rewrite Z.geb_leb. apply Z.leb_gt. exact Hs.
Qed.

Lemma goReadRequests_unconfirmed_pins_witness :
  goReadRequests
    {[ "/var/log/app.log"%string := mkLogRange 5 0 100 false ]}
    confirmedInOrder
    !! "/var/log/app.log"%string
  = Some (mkLogRange 5 0 100 false).
Proof.
  apply goReadRequests_unconfirmed_pins.
  - reflexivity.
  - reflexivity.
  - repeat constructor.
Defined.

End LedgerSequences.

(** ** Saving, loading and resetting the worklog *)

Section PersistenceFacts.

Import Os Worklog WorklogReset.

Variable Marshal : gmap string LogRange -> string + Error.
Variable NewConcurrentMapFromJSON :
  string -> gmap string LogRange * option Error.

Implicit Types (w : Worklog) (world : World) (p : string).

(** X7: [save] reads and writes the store path and the backup path only:
    whatever fails, every other path of the file system holds afterwards
    what it held before. *)
Theorem save_touches_own_paths_only env w world p :
  p <> storeFilePath w ->
  p <> backupFilePath w ->
  files (snd (save Marshal env w world)) !! p = files world !! p.
Proof.
  intros Hs Hb.
  destruct w as [m ch store backup ini]. simpl in Hs, Hb.
  destruct world as [fs0 tr0].
  destruct env as [fStat fRead fOB fOS fCopy fCS fWrite].
  unfold save, saveBackup, IsFile, OpenFile_trunc, Open, Copy, Write,
    Os.Close, emit.
  destruct (decide (store = backup)) as [<- | Hne];
    save_cases Marshal; reflexivity.
Qed.

(** A save that succeeds leaves the serialized map in the store. *)
Lemma save_success_store env w world world' data :
  Marshal (rec w) = inl data ->
  save Marshal env w world = (None, world') ->
  files world' !! storeFilePath w = Some (RegularFile data).
Proof.
  intros HM.
  destruct w as [m ch store backup ini]. simpl in HM.
  destruct world as [fs0 tr0].
  destruct env as [fStat fRead fOB fOS fCopy fCS fWrite].
  unfold save, saveBackup, IsFile, OpenFile_trunc, Open, Copy, Write,
    Os.Close, emit.
  simpl. rewrite HM.
  destruct (decide (store = backup)) as [<- | Hne];
    save_cases Marshal;
    intros H; try discriminate H; injection H as <-; by fs_simpl.
Qed.

(** A save that succeeds over a store file leaves the file's content in
    the backup. *)
Lemma save_success_backup env w world world' old :
  storeFilePath w <> backupFilePath w ->
  files world !! storeFilePath w = Some (RegularFile old) ->
  save Marshal env w world = (None, world') ->
  files world' !! backupFilePath w = Some (RegularFile old).
Proof.
  intros Hne Hold.
  destruct w as [m ch store backup ini]. simpl in Hne, Hold.
  destruct world as [fs0 tr0]. simpl in Hold.
  destruct env as [fStat fRead fOB fOS fCopy fCS fWrite].
  unfold save, saveBackup, IsFile, OpenFile_trunc, Open, Copy, Write,
    Os.Close, emit.
  simpl. rewrite Hold.
  save_cases Marshal;
    intros H; try discriminate H; injection H as <-; by fs_simpl.
Qed.

(** X8: of two successful saves in a row, the second leaves the
    serialization of the first in the backup and its own in the store:
    the backup file holds the previous generation of the store. *)
Theorem save_twice_keeps_previous env1 env2 w1 w2 world0 world1 world2
    d1 d2 :
  storeFilePath w1 <> backupFilePath w1 ->
  storeFilePath w2 = storeFilePath w1 ->
  backupFilePath w2 = backupFilePath w1 ->
  Marshal (rec w1) = inl d1 ->
  Marshal (rec w2) = inl d2 ->
  save Marshal env1 w1 world0 = (None, world1) ->
  save Marshal env2 w2 world1 = (None, world2) ->
  files world2 !! backupFilePath w1 = Some (RegularFile d1)
  /\ files world2 !! storeFilePath w1 = Some (RegularFile d2).
Proof.
  intros Hne Hs Hb HM1 HM2 Hsave1 Hsave2.
  pose proof (save_success_store _ _ _ _ _ HM1 Hsave1) as Hstore1.
  split.
  - rewrite <- Hb. apply (save_success_backup env2 w2 world1 world2 d1).
    + by rewrite Hs, Hb.
    + by rewrite Hs.
    + exact Hsave2.
  - rewrite <- Hs. by apply (save_success_store env2 w2 world1 world2 d2).
Qed.

(** [Init] over a store path that holds no data: the map is kept. *)
Lemma Init_cold env w world :
  initialized w = false ->
  storeFilePath w <> ""%string ->
  failStat env = false ->
  failReadFile env = false ->
  (forall c, files world !! storeFilePath w = Some (RegularFile c) ->
             c = ""%string) ->
  exists w1 world1,
    Init NewConcurrentMapFromJSON env w world = Return (None, w1, world1)
    /\ rec w1 = rec w /\ initialized w1 = true.
Proof.
  intros Hini Hpath Hstat Hread Hempty. unfold Init, IsFile, ReadFile, emit.
  rewrite Hini, Hstat, Hread. rewrite bool_decide_eq_false_2 by done.
  simpl. destruct (files world !! storeFilePath w) as [[c |] |] eqn:E;
    simpl; [| eauto | eauto].
  rewrite E. rewrite (Hempty c eq_refl). simpl. eauto.
Qed.

(** [Init] over a store file that holds data: the map is the one the
    loader answers. *)
Lemma Init_loads env w world data m :
  initialized w = false ->
  storeFilePath w <> ""%string ->
  failStat env = false ->
  failReadFile env = false ->
  files world !! storeFilePath w = Some (RegularFile data) ->
  data <> ""%string ->
  NewConcurrentMapFromJSON data = (m, None) ->
  exists w1 world1,
    Init NewConcurrentMapFromJSON env w world = Return (None, w1, world1)
    /\ rec w1 = m /\ initialized w1 = true.
Proof.
  intros Hini Hpath Hstat Hread Hfile Hdata Hload.
  unfold Init, IsFile, ReadFile, emit.
  rewrite Hini, Hstat, Hread. rewrite bool_decide_eq_false_2 by done.
  simpl. rewrite Hfile. simpl. rewrite Hfile.
  destruct data as [| c data]; [done |]. simpl. rewrite Hload. eauto.
Qed.

(** X9: what a successful save wrote, [Init] of a worklog on the same
    store path loads back: when the loader inverts the serializer on the
    saved data, the initialized worklog holds the saved map. *)
Theorem save_then_Init_restores env env' w w0 world world1 data :
  Marshal (rec w) = inl data ->
  data <> ""%string ->
  NewConcurrentMapFromJSON data = (rec w, None) ->
  save Marshal env w world = (None, world1) ->
  initialized w0 = false ->
  storeFilePath w0 = storeFilePath w ->
  storeFilePath w <> ""%string ->
  failStat env' = false ->
  failReadFile env' = false ->
  exists w1 world2,
    Init NewConcurrentMapFromJSON env' w0 world1
    = Return (None, w1, world2)
    /\ rec w1 = rec w /\ initialized w1 = true.
Proof.
  intros HM Hdata Hload Hsave Hini Hsame Hpath Hstat Hread.
  pose proof (save_success_store _ _ _ _ _ HM Hsave) as Hstore.
  apply (Init_loads env' w0 world1 data (rec w)); try done.
  - by rewrite Hsame.
  - by rewrite Hsame.
Qed.

(** X10: after a successful [Reset], [Init] starts cold: it succeeds
    without consulting the loader and keeps the map the worklog was
    created with. *)
Theorem Reset_then_Init_starts_cold env failTruncate env' w world world1 :
  Reset env failTruncate w world = (None, world1) ->
  initialized w = false ->
  storeFilePath w <> ""%string ->
  failStat env' = false ->
  failReadFile env' = false ->
  exists w1 world2,
    Init NewConcurrentMapFromJSON env' w world1
    = Return (None, w1, world2)
    /\ rec w1 = rec w /\ initialized w1 = true.
Proof.
  intros Hreset Hini Hpath Hstat Hread.
  apply Init_cold; try done.
  revert Hreset. unfold Reset, IsFile, Truncate, emit.
  destruct (failStat env); [discriminate |]. simpl.
  destruct (files world !! storeFilePath w) as [[c0 |] |] eqn:E; simpl.
  - destruct failTruncate; [discriminate |]. rewrite E.
    intros [= <-] c. simpl. rewrite lookup_insert_eq. congruence.
  - intros [= <-] c. simpl. congruence.
  - intros [= <-] c. simpl. congruence.
Qed.

(** X11: [Init] never writes: whatever it returns, the files are as they
    were and the paths of the worklog are unchanged; and an [Init] that
    returns an error leaves the worklog uninitialized, with the channel it
    had, so that it can be called again. *)
Theorem Init_reads_only env w world err w' world' :
  Init NewConcurrentMapFromJSON env w world = Return (err, w', world') ->
  files world' = files world
  /\ storeFilePath w' = storeFilePath w
  /\ backupFilePath w' = backupFilePath w
  /\ (err <> None ->
      initialized w' = false /\ updRequests w' = updRequests w).
Proof.
  unfold Init, IsFile, ReadFile, emit.
  destruct (initialized w) eqn:Hini; [discriminate |].
  destruct (bool_decide _); [by intros [= <- <- <-] |].
  destruct (failStat env); simpl; [by intros [= <- <- <-] |].
  destruct (files world !! storeFilePath w) as [[c |] |] eqn:E; simpl;
    [| by intros [= <- <- <-] | by intros [= <- <- <-]].
  destruct (failReadFile env); simpl; [by intros [= <- <- <-] |].
  rewrite E. destruct (0 <? String.length c)%nat;
    [| by intros [= <- <- <-]].
  destruct (NewConcurrentMapFromJSON c) as [m [e |]];
    by intros [= <- <- <-].
Qed.

(** X12: [Close] must not be called twice: once a [Close] of a worklog
    whose channel was made has returned, the next [Close] panics on the
    closed channel. *)
Theorem Close_twice_panics env env' w world w2 world2 world3 :
  updRequests w <> None ->
  Close Marshal env w world = Return (w2, world2) ->
  Close Marshal env' w2 world3 = Panic "close of closed channel".
Proof.
  intros Hch. unfold Close.
  destruct (save Marshal env w world) as [e1 wd1].
  destruct (updRequests w) as [[|] |] eqn:E; [| discriminate | done].
  intros [= <- _]. simpl.
  by destruct (save Marshal env' _ world3).
Qed.

End PersistenceFacts.

Section PersistenceExamples.

Import Os Worklog WorklogReset Examples MoreExamples.

Lemma save_touches_own_paths_only_witness :
  files (snd (save exampleMarshal noFaults exampleWorklog
                (mkWorld otherFiles [])))
    !! "/wl/other.json"%string
  = Some (RegularFile "{other}").
Proof.
  rewrite (save_touches_own_paths_only exampleMarshal noFaults
             exampleWorklog (mkWorld otherFiles []) "/wl/other.json");
    [reflexivity | discriminate | discriminate].
Defined.

Lemma save_twice_keeps_previous_witness :
  let world1 := snd (save exampleMarshal noFaults exampleWorklog
                       (mkWorld ∅ [])) in
  let world2 := snd (save exampleMarshal noFaults exampleWorklog world1) in
  files world2 !! "/wl/app.json.bak"%string = Some (RegularFile "{new}")
  /\ files world2 !! "/wl/app.json"%string = Some (RegularFile "{new}").
Proof.
  intros world1 world2.
  apply (save_twice_keeps_previous exampleMarshal noFaults noFaults
           exampleWorklog exampleWorklog (mkWorld ∅ []) world1 world2
           "{new}" "{new}");
    try reflexivity.
  discriminate.
Defined.

Lemma save_then_Init_restores_witness :
  exists w1 world2,
    Init exampleUnmarshal noFaults exampleWorklog
      (snd (save exampleMarshal noFaults exampleWorklog (mkWorld ∅ [])))
    = Return (None, w1, world2)
    /\ rec w1 = exampleLedger /\ initialized w1 = true.
Proof.
  apply (save_then_Init_restores exampleMarshal exampleUnmarshal noFaults
           noFaults exampleWorklog exampleWorklog (mkWorld ∅ [])
           (snd (save exampleMarshal noFaults exampleWorklog
                   (mkWorld ∅ [])))
           "{new}"); try reflexivity; discriminate.
Defined.

Lemma Reset_then_Init_starts_cold_witness :
  exists w1 world2,
    Init exampleUnmarshal noFaults exampleWorklog
      (snd (Reset noFaults false exampleWorklog (mkWorld exampleFiles [])))
    = Return (None, w1, world2)
    /\ rec w1 = exampleLedger /\ initialized w1 = true.
Proof.
  apply (Reset_then_Init_starts_cold exampleUnmarshal noFaults false
           noFaults exampleWorklog (mkWorld exampleFiles [])
           (snd (Reset noFaults false exampleWorklog
                   (mkWorld exampleFiles []))));
    try reflexivity. discriminate.
Defined.

Lemma Init_reads_only_witness :
  files (mkWorld exampleFiles
           [EvStat "/wl/app.json"; EvReadFile "/wl/app.json"])
  = exampleFiles.
Proof.
  exact (proj1 (Init_reads_only exampleUnmarshal noFaults exampleWorklog
                  (mkWorld exampleFiles []) _ _ _ Init_example)).
Defined.

Lemma Close_twice_panics_witness :
  Close exampleMarshal noFaults
    (mkWorklog exampleLedger (Some ChanClosed) "/wl/app.json"
       "/wl/app.json.bak" false)
    (mkWorld ∅ [])
  = Panic "close of closed channel".
Proof.
  apply (Close_twice_panics exampleMarshal noFaults noFaults
           (mkWorklog exampleLedger (Some ChanOpen) "/wl/app.json"
              "/wl/app.json.bak" true)
           (mkWorld ∅ [])
           _ (snd (save exampleMarshal noFaults exampleWorklog
                     (mkWorld ∅ []))));
    [discriminate | reflexivity].
Defined.

End PersistenceExamples.

(** ** What a line leaves on the channels and in the buffer *)

Section OnEntryShape.

Import TailProcessor TailProcessorShape.

Variables InputRecord OutputRecord Error Buffer : Type.
Variable ParseLine : string -> Z -> InputRecord + Error.
Variable isLineParsingError : Error -> bool.
Variable IsProcessable : InputRecord -> bool.
Variable Preprocess :
  InputRecord -> Buffer -> (list InputRecord + Error) * Buffer.
Variable AddRecord : InputRecord -> Buffer -> Buffer.
Variable Transform : InputRecord -> OutputRecord + Error.
Variable applyLocation : InputRecord -> OutputRecord -> OutputRecord.
Variable GetTime : OutputRecord -> Time.Time.

Abbreviation pstate := (procState OutputRecord Buffer).
Abbreviation ploop :=
  (forPrepInp InputRecord OutputRecord Error Buffer AddRecord Transform
     applyLocation GetTime).
Lemma appended_nothing filePath logPosition (st st' : pstate) :
  Elastic _ _ st' = Elastic _ _ st ->
  Ignored _ _ st' = Ignored _ _ st ->
  pings _ _ st' = pings _ _ st ->
  appended _ _ filePath logPosition st st'.
Proof.
  intros HE HI HP. exists [], []. rewrite !app_nil_r, HP. simpl.
  repeat split; auto.
Qed.

Lemma appended_ignored filePath logPosition (st st' : pstate) :
  Elastic _ _ st' = Elastic _ _ st ->
  Ignored _ _ st'
  = Ignored _ _ st ++ [NewIgnoredItemMsg filePath logPosition] ->
  pings _ _ st' = pings _ _ st ->
  appended _ _ filePath logPosition st st'.
Proof.
  intros HE HI HP. exists [], [NewIgnoredItemMsg filePath logPosition].
  rewrite app_nil_r, HP. simpl. repeat split; auto.
Qed.

Lemma forPrepInp_appended filePath logPosition recs (st : pstate) :
  appended _ _ filePath logPosition st (ploop filePath logPosition recs st).
Proof.
  revert st. induction recs as [| r recs IH]; intros st; simpl.
  - by apply appended_nothing.
  - destruct (Transform r) as [out | err].
    + destruct (IH (ping OutputRecord Buffer filePath
                      (GetTime (applyLocation r out))
                      (sendElastic OutputRecord Buffer
                         (mkBoundOutputRecord OutputRecord filePath
                            (applyLocation r out) logPosition)
                         (setBuffer OutputRecord Buffer
                            (AddRecord r (logBuffer _ _ st)) st))))
        as (newOut & newIgn & HE & HI & HB & HN & HP).
      simpl in HE, HI, HP.
      exists (mkBoundOutputRecord OutputRecord filePath
                (applyLocation r out) logPosition :: newOut), newIgn.
      rewrite HE, HI, HP, <- app_assoc, length_app. simpl.
      repeat split; auto. lia.
    + by apply appended_ignored.
Qed.

Lemma OnEntry_appended filePath (st : pstate) item logPosition :
  appended _ _ filePath logPosition st
    (OnEntry InputRecord OutputRecord Error Buffer ParseLine
       isLineParsingError IsProcessable Preprocess AddRecord Transform
       applyLocation GetTime filePath st item logPosition).
Proof.
  unfold OnEntry. destruct (ParseLine item (-1)) as [parsed | err].
  - destruct (IsProcessable parsed).
    + destruct (Preprocess parsed (logBuffer _ _ st)) as [[recs | err] buf].
      * destruct (forPrepInp_appended filePath logPosition recs
                    (setBuffer OutputRecord Buffer buf st))
          as (newOut & newIgn & H).
        exists newOut, newIgn. exact H.
      * by apply appended_ignored.
    + by apply appended_ignored.
  - by apply appended_ignored.
Qed.

(** X13: whatever a line is and however its processing ends, [OnEntry]
    only appends to the output channel, every output record it appends is
    bound to the processor's file path and the line's byte range, and the
    health checker is pinged once for each of them. *)
Theorem OnEntry_outputs_bound filePath (st : pstate) item logPosition :
  let st' :=
    OnEntry InputRecord OutputRecord Error Buffer ParseLine
      isLineParsingError IsProcessable Preprocess AddRecord Transform
      applyLocation GetTime filePath st item logPosition in
  exists newOut,
    Elastic _ _ st' = Elastic _ _ st ++ newOut
    /\ Forall (fun r => BoundFilePath _ r = filePath
                        /\ FilePos _ r = logPosition) newOut
    /\ length (pings _ _ st') = (length (pings _ _ st) + length newOut)%nat.
Proof.
  simpl. destruct (OnEntry_appended filePath st item logPosition)
    as (newOut & newIgn & HE & HI & HB & HN & HP).
  exists newOut. auto.
Qed.

(** X14: a line adds at most one message to the ignored channel, tagged
    with the processor's file path and the line's byte range, and never
    removes one. *)
Theorem OnEntry_ignored_at_most_once filePath (st : pstate) item
    logPosition :
  let st' :=
    OnEntry InputRecord OutputRecord Error Buffer ParseLine
      isLineParsingError IsProcessable Preprocess AddRecord Transform
      applyLocation GetTime filePath st item logPosition in
  Ignored _ _ st' = Ignored _ _ st
  \/ Ignored _ _ st'
     = Ignored _ _ st ++ [NewIgnoredItemMsg filePath logPosition].
Proof.
  simpl. destruct (OnEntry_appended filePath st item logPosition)
    as (newOut & newIgn & HE & HI & HB & [-> | ->] & HP).
  - left. by rewrite HI, app_nil_r.
  - by right.
Qed.

(** The buffer after the loop took the records [recs] in. *)
Lemma forPrepInp_buffer_all filePath logPosition recs (st : pstate) :
  Forall (fun r => transforms _ _ _ Transform r = true) recs ->
  logBuffer _ _ (ploop filePath logPosition recs st)
  = fold_left (fun b r => AddRecord r b) recs (logBuffer _ _ st).
Proof.
  intros Hall. revert st.
  induction Hall as [| r recs Hr Hall IH]; intros st; simpl; [done |].
  unfold transforms in Hr.
  destruct (Transform r) as [out | err]; [| discriminate].
  by rewrite IH.
Qed.

Lemma boundOutputs_length filePath logPosition recs :
  Forall (fun r => transforms _ _ _ Transform r = true) recs ->
  length (boundOutputs _ _ _ Transform applyLocation filePath logPosition
            recs) = length recs.
Proof.
  intros Hall. unfold boundOutputs.
  induction Hall as [| r recs Hr Hall IH]; simpl; [done |].
  unfold transforms in Hr.
  destruct (Transform r) as [out | err]; [| discriminate].
  simpl. f_equal. exact IH.
Qed.

(** X15: when the line parses to a processable record, [Preprocess]
    succeeds and every record it returns transforms, the line yields one
    output record per returned record, in order, and no ignored message,
    and the buffer has taken every returned record in; when [Preprocess]
    returns no record at all, nothing is sent on either channel. *)
Theorem OnEntry_all_transformed filePath (st : pstate) item logPosition
    parsed recs buf :
  ParseLine item (-1) = inl parsed ->
  IsProcessable parsed = true ->
  Preprocess parsed (logBuffer _ _ st) = (inl recs, buf) ->
  Forall (fun r => transforms _ _ _ Transform r = true) recs ->
  let st' :=
    OnEntry InputRecord OutputRecord Error Buffer ParseLine
      isLineParsingError IsProcessable Preprocess AddRecord Transform
      applyLocation GetTime filePath st item logPosition in
  let outs :=
    boundOutputs _ _ _ Transform applyLocation filePath logPosition recs in
  Elastic _ _ st' = Elastic _ _ st ++ outs
  /\ length outs = length recs
  /\ Ignored _ _ st' = Ignored _ _ st
  /\ logBuffer _ _ st' = fold_left (fun b r => AddRecord r b) recs buf.
Proof.
  intros Hparse Hproc Hpre Hall. simpl. unfold OnEntry.
  rewrite Hparse, Hproc, Hpre.
  destruct (forPrepInp_all_transform _ _ _ _ AddRecord Transform
              applyLocation GetTime filePath logPosition recs
              (setBuffer OutputRecord Buffer buf st) Hall) as [HI HE].
  simpl in HI, HE. repeat split; try done.
  - by apply boundOutputs_length.
  - by rewrite forPrepInp_buffer_all.
Qed.

Lemma forPrepInp_buffer_until_failure filePath logPosition ok failing rest
    (st : pstate) :
  Forall (fun r => transforms _ _ _ Transform r = true) ok ->
  transforms _ _ _ Transform failing = false ->
  logBuffer _ _ (ploop filePath logPosition (ok ++ failing :: rest) st)
  = AddRecord failing
      (fold_left (fun b r => AddRecord r b) ok (logBuffer _ _ st)).
Proof.
  intros Hok Hfail. revert st.
  induction Hok as [| r ok Hr Hok IH]; intros st; simpl.
  - unfold transforms in Hfail.
    by destruct (Transform failing) as [out | err].
  - unfold transforms in Hr.
    destruct (Transform r) as [out | err]; [| discriminate].
    by rewrite IH.
Qed.

(** X16: a record is added to the log buffer before it is transformed:
    when [Transform] rejects a record, the buffer has nevertheless taken
    in that record and the ones before it, and none of the ones after. *)
Theorem OnEntry_rejected_record_is_buffered filePath (st : pstate) item
    logPosition parsed buf ok failing rest :
  ParseLine item (-1) = inl parsed ->
  IsProcessable parsed = true ->
  Preprocess parsed (logBuffer _ _ st)
  = (inl (ok ++ failing :: rest), buf) ->
  Forall (fun r => transforms _ _ _ Transform r = true) ok ->
  transforms _ _ _ Transform failing = false ->
  logBuffer _ _
    (OnEntry InputRecord OutputRecord Error Buffer ParseLine
       isLineParsingError IsProcessable Preprocess AddRecord Transform
       applyLocation GetTime filePath st item logPosition)
  = AddRecord failing (fold_left (fun b r => AddRecord r b) ok buf).
Proof.
  intros Hparse Hproc Hpre Hok Hfail. unfold OnEntry.
  rewrite Hparse, Hproc, Hpre.
  by rewrite forPrepInp_buffer_until_failure.
Qed.

End OnEntryShape.

Section OnEntryShapeExamples.

Import TailProcessor Examples MoreExamples.

Lemma OnEntry_all_transformed_witness :
  let pos := mkLogRange 5 0 10 false in
  let st' :=
    exOnEntryAccepting "/var/log/app.log" exProcState "a line" pos in
  let outs :=
    boundOutputs nat nat string (fun r => inl r) (fun _ out => out)
      "/var/log/app.log" pos [1; 2]%nat in
  Elastic _ _ st' = Elastic _ _ exProcState ++ outs
  /\ length outs = length [1; 2]%nat
  /\ Ignored _ _ st' = Ignored _ _ exProcState
  /\ logBuffer _ _ st' = fold_left (fun b r => cons r b) [1; 2]%nat [].
Proof.
  intros pos st' outs.
  apply (OnEntry_all_transformed nat nat string (list nat) exParseLine
           (fun _ => true) (fun _ => true) exPreprocess cons
           (fun r => inl r) (fun _ out => out) (fun _ => Time.zero)
           "/var/log/app.log" exProcState "a line" pos 0%nat [1; 2]%nat []);
    try reflexivity.
  repeat constructor.
Defined.

Lemma OnEntry_rejected_record_is_buffered_witness :
  logBuffer _ _
    (exOnEntry "/var/log/app.log" exProcState "a line"
       (mkLogRange 5 0 10 false))
  = [2; 1]%nat.
Proof.
  apply (OnEntry_rejected_record_is_buffered nat nat string (list nat)
           exParseLine (fun _ => true) (fun _ => true) exPreprocess cons
           exTransform (fun _ out => out) (fun _ => Time.zero)
           "/var/log/app.log" exProcState "a line"
           (mkLogRange 5 0 10 false) 0%nat [] [1%nat] 2%nat []);
    try reflexivity.
  repeat constructor.
Defined.

End OnEntryShapeExamples.

(** ** More on the mapka3 [Preprocess] *)

Section Mapka3More.

Import Mapka3.

Variables InputRecord Buffer Float : Type.
Variable ClusteringClientID : InputRecord -> string.
Variable GetTime : InputRecord -> Time.Time.
Variable GetLastCheck : Buffer -> string -> Time.Time.
Variable ForEach : Buffer -> string -> list InputRecord.
Variable RemoveAnalyzedRecords : Buffer -> string -> Time.Time -> Buffer.
Variable ConfirmRecordCheck : Buffer -> InputRecord -> Buffer.
Variable Analyze : Z -> Float -> list InputRecord -> list InputRecord.

(** X17: [Preprocess] never answers an empty list: whatever the buffer
    holds and whatever the analysis finds, at least one record goes on to
    be transformed. *)
Theorem Preprocess_never_empty (t : Transformer Float) (rec : InputRecord)
    (prevRecs : Buffer) :
  fst (Preprocess InputRecord Buffer Float ClusteringClientID GetTime
         GetLastCheck ForEach RemoveAnalyzedRecords ConfirmRecordCheck
         Analyze t rec prevRecs) <> [].
Proof.
  unfold Preprocess.
  destruct (_ <? _); [| done].
  destruct (0 <? length _)%nat; [| done].
  destruct (Analyze _ _ _) as [| c cs]; done.
Qed.

(** X18: the analysis is amortized.  For a buffer whose
    [ConfirmRecordCheck] stamps the record's time as the last check of the
    record's key: once [Preprocess] has found clusters for a record, a
    record of the same key that is not later than the analysis interval
    after it passes through unchanged, and the buffer is left as it is. *)
Theorem Preprocess_amortized (t : Transformer Float) (rec rec2 : InputRecord)
    (prevRecs : Buffer) :
  (forall b r,
      GetLastCheck (ConfirmRecordCheck b r) (ClusteringClientID r)
      = GetTime r) ->
  analysisDue InputRecord Buffer Float ClusteringClientID GetTime
    GetLastCheck t rec prevRecs = true ->
  clustersOf InputRecord Buffer Float ClusteringClientID ForEach Analyze
    t rec prevRecs <> [] ->
  ForEach prevRecs (ClusteringClientID rec) <> [] ->
  ClusteringClientID rec2 = ClusteringClientID rec ->
  Time.Sub (GetTime rec2) (GetTime rec) <= analysisInterval Float t ->
  let after :=
    snd (Preprocess InputRecord Buffer Float ClusteringClientID GetTime
           GetLastCheck ForEach RemoveAnalyzedRecords ConfirmRecordCheck
           Analyze t rec prevRecs) in
  Preprocess InputRecord Buffer Float ClusteringClientID GetTime
    GetLastCheck ForEach RemoveAnalyzedRecords ConfirmRecordCheck Analyze
    t rec2 after
  = ([rec2], after).
Proof.
  intros Hlaw Hdue Hclusters Hitems Hkey Hclose. simpl.
  assert (Hafter :
    snd (Preprocess InputRecord Buffer Float ClusteringClientID GetTime
           GetLastCheck ForEach RemoveAnalyzedRecords ConfirmRecordCheck
           Analyze t rec prevRecs)
    = ConfirmRecordCheck
        (RemoveAnalyzedRecords prevRecs (ClusteringClientID rec)
           (GetTime rec)) rec).
  { unfold Preprocess. unfold analysisDue in Hdue. rewrite Hdue.
    rewrite (collectItems_ForEach InputRecord Buffer ForEach).
    rewrite !length_pos_nonempty.
    rewrite (bool_decide_eq_false_2 _ Hitems).
    unfold clustersOf in Hclusters.
    by rewrite (bool_decide_eq_false_2 _ Hclusters). }
  rewrite Hafter. unfold Preprocess at 1. rewrite Hkey, Hlaw.
  replace (analysisInterval Float t
           <? Time.Sub (GetTime rec2) (GetTime rec)) with false; [done |].
  symmetry. apply Z.ltb_ge. exact Hclose.
Qed.

End Mapka3More.

Section Mapka3MoreExamples.

Import Mapka3 Examples.

Lemma Preprocess_amortized_witness :
  let after :=
    snd (exPreprocessMapka3 exTransformer (mkExRecord "c1" 90000000000)
           exBufferTwo) in
  exPreprocessMapka3 exTransformer (mkExRecord "c1" 120000000000) after
  = ([mkExRecord "c1" 120000000000], after).
Proof.
  apply (Preprocess_amortized exRecord exBuffer unit exKey exTime
           exGetLastCheck exForEach exRemoveAnalyzedRecords
           exConfirmRecordCheck exAnalyze exTransformer
           (mkExRecord "c1" 90000000000) (mkExRecord "c1" 120000000000)
           exBufferTwo).
  - intros b r. unfold exGetLastCheck, exConfirmRecordCheck. simpl.
    by rewrite lookup_insert_eq.
  - reflexivity.
  - discriminate.
  - discriminate.
  - reflexivity.
  - vm_compute. discriminate.
Defined.

End Mapka3MoreExamples.

(** ** Strings *)

Section StringFacts.

Import Strings.

Implicit Types (s t : string) (c : ascii).

Lemma string_app_cons c s t :
  (String c s ++ t)%string = String c (s ++ t).
Proof. reflexivity. Qed.

Lemma string_app_nil_l s : ("" ++ s)%string = s.
Proof. reflexivity. Qed.

Lemma string_app_nil_r s : (s ++ "")%string = s.
Proof.
  induction s as [| c s IH]; [done |]. by rewrite string_app_cons, IH.
Qed.

Lemma string_app_assoc s t u :
  ((s ++ t) ++ u)%string = (s ++ (t ++ u))%string.
Proof.
  induction s as [| c s IH]; [done |]. by rewrite !string_app_cons, IH.
Qed.

Lemma string_length_app s t :
  String.length (s ++ t) = (String.length s + String.length t)%nat.
Proof.
  induction s as [| c s IH]; [done |].
  rewrite string_app_cons. simpl. by rewrite IH.
Qed.

Lemma substring_0_all s : String.substring 0 (String.length s) s = s.
Proof. induction s as [| c s IH]; simpl; [done |]. by rewrite IH. Qed.

Lemma substring_0_app s t :
  String.substring 0 (String.length s) (s ++ t) = s.
Proof.
  induction s as [| c s IH]; [by destruct t |].
  rewrite string_app_cons. simpl. by rewrite IH.
Qed.

Lemma firstByte_cons c s : firstByte (String c s) = Some c.
Proof. reflexivity. Qed.

Lemma lastByte_cons c s :
  lastByte (String c s) = match s with
                          | EmptyString => Some c
                          | _ => lastByte s
                          end.
Proof.
  unfold lastByte. destruct s as [| d s]; [done |].
  simpl. by rewrite Nat.sub_0_r.
Qed.

Lemma lastByte_nonempty s : s <> EmptyString -> is_Some (lastByte s).
Proof.
  induction s as [| c s IH]; [done |]. intros _.
  rewrite lastByte_cons. destruct s as [| d s]; [by eexists |].
  by apply IH.
Qed.

Lemma lastByte_snoc s c : lastByte (s ++ String c "") = Some c.
Proof.
  induction s as [| d s IH]; [done |].
  rewrite string_app_cons, lastByte_cons.
  destruct s as [| e s]; [done |]. by rewrite string_app_cons in *.
Qed.

Lemma hasByte_app c s t :
  hasByte c (s ++ t) = hasByte c s || hasByte c t.
Proof.
  induction s as [| d s IH]; [done |].
  rewrite string_app_cons. simpl. by rewrite IH, orb_assoc.
Qed.

(** The pieces of a string without the separator: the string itself. *)
Lemma Split_none s c : hasByte c s = false -> Split s c = [s].
Proof.
  induction s as [| d s IH]; simpl; [done |].
  intros [Hd Hs]%orb_false_iff. rewrite Hd, (IH Hs). done.
Qed.

Lemma Split_nonempty s c : Split s c <> [].
Proof.
  induction s as [| d s IH]; simpl; [done |].
  destruct (Ascii.eqb d c); [done |]. by destruct (Split s c).
Qed.

(** Splitting at a separator that follows a piece without one. *)
Lemma Split_app s t c :
  hasByte c s = false ->
  Split (s ++ String c t) c = s :: Split t c.
Proof.
  induction s as [| d s IH].
  - intros _. rewrite string_app_nil_l. simpl. by rewrite Ascii.eqb_refl.
  - simpl. intros [Hd Hs]%orb_false_iff. rewrite Hd, (IH Hs). done.
Qed.

(** Joining pieces without the separator and splitting again. *)
Lemma Split_Join (ws : list string) c :
  ws <> [] ->
  Forall (fun w => hasByte c w = false) ws ->
  Split (Join ws (String c "")) c = ws.
Proof.
  intros Hne Hall. induction Hall as [| w ws Hw Hall IH]; [done |].
  destruct ws as [| w' ws].
  - simpl. by apply Split_none.
  - change (Join (w :: w' :: ws) (String c ""))
      with (w ++ String c "" ++ Join (w' :: ws) (String c ""))%string.
    rewrite string_app_cons, string_app_nil_l.
    rewrite (Split_app _ _ _ Hw). f_equal. by apply IH.
Qed.

End StringFacts.

(** ** The tokenizer of access log lines *)

Section TokenizerFacts.

Import Strings Worklog Accesslog.

Implicit Types (st : tokState) (item w : string) (done : list string).

Lemma nonempty_length item : item <> EmptyString ->
  (String.length item =? 0)%nat = false.
Proof. by destruct item. Qed.

Lemma updateTokenAt_length its i v its' :
  updateTokenAt its i v = inl its' -> length its' = length its.
Proof.
  unfold updateTokenAt. destruct (i <? length its)%nat; [| discriminate].
  intros [= <-]. apply length_insert.
Qed.

(** One piece never makes the loop panic and keeps the number of
    tokens. *)
Lemma tokenizeItem_returns st item :
  exists r,
    tokenizeItem st item = Return r
    /\ forall st', r = inl st' -> length (items st') = length (items st).
Proof.
  unfold tokenizeItem.
  destruct item as [| c item];
    [eexists; split; [reflexivity |]; by intros st' [= <-] |].
  cbn [String.length Nat.eqb]. rewrite firstByte_cons.
  destruct (lastByte_nonempty (String c item)) as [cl ->]; [done |].
  repeat match goal with
         | |- context [if ?b then _ else _] => destruct b
         | |- context [match updateTokenAt ?a ?b ?v with _ => _ end] =>
             let E := fresh "E" in
             destruct (updateTokenAt a b v) eqn:E
         end;
    eexists; (split; [reflexivity |]); intros st' [= <-]; simpl;
    try done; try (by eapply updateTokenAt_length); by rewrite length_insert.
Qed.

Lemma tokenizeItems_returns st pieces :
  exists r,
    tokenizeItems st pieces = Return r
    /\ forall st', r = inl st' -> length (items st') = length (items st).
Proof.
  revert st. induction pieces as [| item pieces IH]; intros st; simpl.
  - eexists. split; [done |]. by intros ? [= <-].
  - destruct (tokenizeItem_returns st item) as ([st1 | err] & -> & Hlen).
    + destruct (IH st1) as (r & -> & Hlen').
      exists r. split; [done |]. intros st' ->.
      rewrite (Hlen' st' eq_refl). by apply Hlen.
    + eexists. split; [done |]. discriminate.
Qed.

Lemma tokenize_ten (s : string) :
  exists r,
    tokenize s = Return r
    /\ forall tokens, r = inl tokens -> length tokens = 10%nat.
Proof.
  unfold tokenize.
  destruct (tokenizeItems_returns initialTokState (Split s " "))
    as ([st | err] & -> & Hlen).
  - eexists. split; [done |]. intros tokens [= <-].
    by rewrite (Hlen st eq_refl).
  - eexists. split; [done |]. discriminate.
Qed.

(** X19: [tokenize] never indexes a piece out of its range, so it always
    returns, and the tokens it returns without an error are exactly
    ten. *)
Theorem tokenize_returns_ten (s : string) :
  exists r,
    tokenize s = Return r
    /\ forall tokens, r = inl tokens -> length tokens = 10%nat.
Proof. apply tokenize_ten. Qed.

Lemma pad10_length done : length (pad10 done) = 10%nat.
Proof.
  unfold pad10. rewrite length_app, length_take, length_replicate. lia.
Qed.

Lemma pad10_snoc_lt done w :
  (length done < 10)%nat ->
  <[length done := w]> (pad10 done) = pad10 (done ++ [w]).
Proof.
  intros Hlt. unfold pad10.
  rewrite (take_ge done) by lia.
  rewrite (take_ge (done ++ [w])) by (rewrite length_app; simpl; lia).
  rewrite insert_app_r_alt by lia. rewrite Nat.sub_diag.
  rewrite length_app. simpl.
  replace (10 - length done)%nat with (S (10 - (length done + 1)))%nat
    by lia.
  simpl. by rewrite <- app_assoc.
Qed.

Lemma pad10_snoc_ge done w :
  (10 <= length done)%nat -> pad10 (done ++ [w]) = pad10 done.
Proof.
  intros Hge. unfold pad10. rewrite take_app_le by lia.
  rewrite length_app. simpl.
  replace (10 - (length done + 1))%nat with 0%nat by lia.
  by replace (10 - length done)%nat with 0%nat by lia.
Qed.

Lemma stateOf_snoc_ge done w :
  (10 <= length done)%nat -> stateOf (done ++ [w]) = stateOf done.
Proof.
  intros Hge. unfold stateOf. rewrite pad10_snoc_ge by done.
  rewrite length_app. f_equal. cbn [length]. lia.
Qed.

(** A bare piece becomes the next token, or is dropped once ten tokens
    are there. *)
Lemma tokenizeItem_bare done item :
  item <> EmptyString ->
  bare item ->
  tokenizeItem (stateOf done) item = Return (inl (stateOf (done ++ [item]))).
Proof.
  intros Hne Hbare. unfold tokenizeItem.
  rewrite (nonempty_length _ Hne).
  destruct item as [| c item]; [done |]. rewrite firstByte_cons.
  destruct (lastByte_nonempty (String c item)) as [cl ->]; [done |].
  rewrite (Hbare c eq_refl). cbn [stateOf currQuotChar items parsedPos].
  rewrite Ascii.eqb_refl. cbn [negb andb]. rewrite pad10_length.
  destruct (Nat.ltb_spec (min 10 (length done)) 10) as [Hlt | Hge].
  - rewrite Nat.min_r by lia.
    rewrite pad10_snoc_lt by lia. unfold stateOf.
    rewrite length_app. cbn [length]. do 3 f_equal. lia.
  - rewrite stateOf_snoc_ge by lia. reflexivity.
Qed.

Lemma tokenizeItems_bare done pieces :
  Forall bare (filter (fun w => w <> EmptyString) pieces) ->
  tokenizeItems (stateOf done) pieces
  = Return
      (inl (stateOf (done ++ filter (fun w => w <> EmptyString) pieces))).
Proof.
  revert done. induction pieces as [| item pieces IH]; intros done Hall.
  - simpl. by rewrite app_nil_r.
  - destruct (decide (item = EmptyString)) as [-> | Hne].
    + rewrite filter_cons_False in * by (intros H; by apply H).
      simpl. by apply IH.
    + rewrite filter_cons_True in * by done.
      inversion Hall as [| ? ? Hbare Hrest]; subst.
      simpl. rewrite (tokenizeItem_bare _ _ Hne Hbare).
      rewrite (IH _ Hrest). by rewrite <- app_assoc.
Qed.

(** X20: on a line whose pieces between spaces open no quote, the tokens
    are the non-empty pieces in order: runs of spaces count as one
    separator, missing tokens are empty strings, and pieces beyond the
    tenth are dropped without an error. *)
Theorem tokenize_bare_pieces (s : string) :
  let ws := filter (fun w => w <> EmptyString) (Split s " ") in
  Forall bare ws ->
  tokenize s = Return (inl (pad10 ws)).
Proof.
  intros ws Hall. unfold tokenize.
  change initialTokState with (stateOf []).
  by rewrite (tokenizeItems_bare [] _ Hall).
Qed.

Lemma tokenizeItems_app st pieces1 pieces2 :
  tokenizeItems st (pieces1 ++ pieces2)
  = match tokenizeItems st pieces1 with
    | Return (inl st') => tokenizeItems st' pieces2
    | other => other
    end.
Proof.
  revert st. induction pieces1 as [| item pieces1 IH]; intros st; simpl;
    [done |].
  by destruct (tokenizeItem st item) as [msg | [st' | err]].
Qed.

Lemma isCloseQuot_opening q c :
  opening q -> isCloseQuot q c = Ascii.eqb c (testOpenQuot q).
Proof.
  intros [-> | ->]; unfold isCloseQuot, testOpenQuot; simpl;
    by rewrite ?orb_false_r.
Qed.

Lemma opening_facts q :
  opening q ->
  Ascii.eqb q Ascii.zero = false
  /\ Ascii.eqb (testOpenQuot q) Ascii.zero = false
  /\ Ascii.eqb q " " = false
  /\ Ascii.eqb (testOpenQuot q) " " = false.
Proof. intros [-> | ->]; by vm_compute. Qed.

Lemma eqb_lastByte_ne w c :
  w <> EmptyString ->
  lastByte w <> Some c ->
  exists cl, lastByte w = Some cl /\ Ascii.eqb cl c = false.
Proof.
  intros Hne Hlast. destruct (lastByte_nonempty w Hne) as [cl Hcl].
  exists cl. split; [done |]. apply Ascii.eqb_neq. congruence.
Qed.

(** Inside a quote, a word that neither starts nor ends with the closing
    character is kept for the token. *)
Lemma tokenizeItem_inside its acc q pos w :
  opening q ->
  w <> EmptyString ->
  firstByte w <> Some (testOpenQuot q) ->
  lastByte w <> Some (testOpenQuot q) ->
  tokenizeItem (mkTokState its acc q pos) w
  = Return (inl (mkTokState its (acc ++ [w]) q pos)).
Proof.
  intros Hq Hne Hfirst Hlast. unfold tokenizeItem.
  rewrite (nonempty_length _ Hne).
  destruct (eqb_lastByte_ne w _ Hne Hlast) as (cl & -> & Hcl).
  destruct w as [| c w]; [done |]. rewrite firstByte_cons in *.
  cbn [currQuotChar items parsedPos currQuoted].
  destruct (opening_facts q Hq) as (Hq0 & _). rewrite Hq0.
  rewrite !(isCloseQuot_opening _ _ Hq), Hcl.
  replace (Ascii.eqb c (testOpenQuot q)) with false; [done |].
  symmetry. apply Ascii.eqb_neq. congruence.
Qed.

(** Inside a quote, the piece that ends with the closing character ends
    the token. *)
Lemma tokenizeItem_closing its acc q pos w :
  opening q ->
  (pos < length its)%nat ->
  tokenizeItem (mkTokState its acc q pos)
    (w ++ String (testOpenQuot q) "")
  = Return
      (inl (mkTokState (<[pos := Join (acc ++ [w]) " "]> its) []
              Ascii.zero (S pos))).
Proof.
  intros Hq Hpos. unfold tokenizeItem.
  assert (Hne : (w ++ String (testOpenQuot q) "")%string <> EmptyString)
    by (by destruct w).
  rewrite (nonempty_length _ Hne), lastByte_snoc.
  destruct (w ++ String (testOpenQuot q) "")%string as [| c item] eqn:E;
    [done |].
  rewrite firstByte_cons. rewrite <- E. clear E.
  cbn [currQuotChar items parsedPos currQuoted].
  destruct (opening_facts q Hq) as (Hq0 & _). rewrite Hq0.
  rewrite (isCloseQuot_opening _ _ Hq), Ascii.eqb_refl.
  rewrite string_length_app. cbn [String.length].
  replace (String.length w + 1 - 1)%nat with (String.length w) by lia.
  rewrite substring_0_app. unfold updateTokenAt.
  by destruct (Nat.ltb_spec pos (length its)); [| lia].
Qed.

(** The words of a quote after the first one. *)
Lemma tokenizeItems_inside its acc q pos rest :
  opening q ->
  (pos < length its)%nat ->
  rest <> [] ->
  Forall (fun w => word w
                   /\ firstByte w <> Some (testOpenQuot q)
                   /\ lastByte w <> Some (testOpenQuot q)) rest ->
  tokenizeItems (mkTokState its acc q pos) (closeLast (testOpenQuot q) rest)
  = Return
      (inl (mkTokState (<[pos := Join (acc ++ rest) " "]> its) []
              Ascii.zero (S pos))).
Proof.
  intros Hq Hpos Hne Hall. revert acc.
  induction Hall as [| w rest ([Hw _] & Hfirst & Hlast) Hall IH];
    intros acc; [done |].
  destruct rest as [| w' rest].
  - simpl. by rewrite tokenizeItem_closing.
  - change (closeLast (testOpenQuot q) (w :: w' :: rest))
      with (w :: closeLast (testOpenQuot q) (w' :: rest)).
    cbn [tokenizeItems]. rewrite tokenizeItem_inside by done.
    rewrite IH by done. by rewrite <- app_assoc.
Qed.

(** A quoted field of one word. *)
Lemma tokenizeItem_single done q w :
  opening q ->
  (length done < 10)%nat ->
  tokenizeItem (stateOf done) (String q (w ++ String (testOpenQuot q) ""))
  = Return (inl (stateOf (done ++ [w]))).
Proof.
  intros Hq Hlt. unfold tokenizeItem. cbn [String.length Nat.eqb].
  rewrite firstByte_cons, lastByte_cons.
  destruct (w ++ String (testOpenQuot q) "")%string as [| c item] eqn:E;
    [by destruct w |].
  rewrite <- E, lastByte_snoc, string_length_app. clear E.
  cbn [String.length stateOf currQuotChar items parsedPos currQuoted].
  destruct (opening_facts q Hq) as (_ & Hc0 & _).
  rewrite Hc0, !Ascii.eqb_refl. cbn [negb andb].
  replace (1 <? S (String.length w + 1))%nat with true
    by (symmetry; apply Nat.ltb_lt; lia).
  replace (S (String.length w + 1) - 2)%nat with (String.length w) by lia.
  cbn [String.substring]. rewrite substring_0_app.
  unfold updateTokenAt. rewrite pad10_length.
  rewrite Nat.min_r by lia.
  destruct (Nat.ltb_spec (length done) 10); [| lia].
  rewrite pad10_snoc_lt by done. unfold stateOf.
  rewrite length_app. cbn [length]. do 3 f_equal. lia.
Qed.

(** The first piece of a quoted field of several words. *)
Lemma tokenizeItem_open done q w :
  opening q ->
  w <> EmptyString ->
  lastByte w <> Some (testOpenQuot q) ->
  tokenizeItem (stateOf done) (String q w)
  = Return
      (inl (mkTokState (pad10 done) [w] q (min 10 (length done)))).
Proof.
  intros Hq Hne Hlast. unfold tokenizeItem. cbn [String.length Nat.eqb].
  rewrite firstByte_cons, lastByte_cons.
  destruct (eqb_lastByte_ne w _ Hne Hlast) as (cl & Hcl & Hneq).
  destruct w as [| c w]; [done |]. rewrite Hcl.
  cbn [stateOf currQuotChar items parsedPos currQuoted].
  destruct (opening_facts q Hq) as (_ & Hc0 & _).
  rewrite Hc0, Hneq, Ascii.eqb_refl. cbn [negb andb app].
  replace (S (String.length (String c w)) - 1)%nat
    with (String.length (String c w)) by lia.
  change (String.substring 1 (String.length (String c w))
            (String q (String c w)))
    with (String.substring 0 (String.length (String c w)) (String c w)).
  by rewrite substring_0_all.
Qed.

(** A well-formed field, read from between two fields, is the next
    token. *)
Lemma tokenizeItems_field done f :
  wellFormed f ->
  (length done < 10)%nat ->
  tokenizeItems (stateOf done) (pieces f)
  = Return (inl (stateOf (done ++ [value f]))).
Proof.
  intros Hwf Hlt. destruct f as [w | q ws].
  - destruct Hwf as [[Hne _] Hbare]. simpl.
    by rewrite tokenizeItem_bare.
  - destruct Hwf as (Hq & Hne & Hall).
    destruct ws as [| w1 rest]; [done |].
    inversion Hall as [| ? ? ([Hw1 _] & _ & Hlast1) Hrest]; subst.
    destruct rest as [| w2 rest].
    + cbn [pieces decorate closeLast tokenizeItems value Join].
      by rewrite tokenizeItem_single.
    + change (pieces (Quoted q (w1 :: w2 :: rest)))
        with (String q w1 :: closeLast (testOpenQuot q) (w2 :: rest)).
      cbn [tokenizeItems]. rewrite tokenizeItem_open by done.
      rewrite tokenizeItems_inside; try done.
      * rewrite Nat.min_r by lia. rewrite pad10_snoc_lt by done.
        unfold stateOf. rewrite length_app. cbn [length].
        do 3 f_equal. lia.
      * rewrite pad10_length. lia.
Qed.

Lemma tokenizeItems_fields done fields :
  Forall wellFormed fields ->
  (length done + length fields <= 10)%nat ->
  tokenizeItems (stateOf done) (concat (pieces <$> fields))
  = Return (inl (stateOf (done ++ (value <$> fields)))).
Proof.
  intros Hall. revert done.
  induction Hall as [| f fields Hf Hall IH]; intros done Hlen.
  - simpl. by rewrite app_nil_r.
  - cbn [fmap list_fmap concat length] in *.
    rewrite tokenizeItems_app, tokenizeItems_field by (done || lia).
    rewrite IH by (rewrite length_app; simpl; lia).
    by rewrite <- app_assoc.
Qed.

Lemma Join_cons_head c p ps sep :
  Join (String c p :: ps) sep = String c (Join (p :: ps) sep).
Proof. by destruct ps. Qed.

Lemma Join_app (a b : list string) sep :
  a <> [] -> b <> [] ->
  Join (a ++ b) sep = (Join a sep ++ sep ++ Join b sep)%string.
Proof.
  intros Ha Hb. induction a as [| x a IH]; [done |].
  destruct a as [| y a].
  - destruct b; [done |]. reflexivity.
  - change (Join ((x :: y :: a) ++ b) sep)
      with (x ++ sep ++ Join ((y :: a) ++ b) sep)%string.
    rewrite IH by done.
    change (Join (x :: y :: a) sep)
      with (x ++ sep ++ Join (y :: a) sep)%string.
    by rewrite !string_app_assoc.
Qed.

Lemma Join_concat (pss : list (list string)) sep :
  Forall (fun ps => ps <> []) pss ->
  Join ((fun ps => Join ps sep) <$> pss) sep = Join (concat pss) sep.
Proof.
  intros Hall. induction Hall as [| ps pss Hps Hall IH]; [done |].
  destruct pss as [| ps' pss].
  - simpl. by rewrite app_nil_r.
  - change (Join ((fun ps => Join ps sep) <$> ps :: ps' :: pss) sep)
      with (Join ps sep ++ sep
            ++ Join ((fun ps => Join ps sep) <$> ps' :: pss) sep)%string.
    rewrite IH.
    change (concat (ps :: ps' :: pss)) with (ps ++ concat (ps' :: pss)).
    rewrite Join_app; [done | done |].
    inversion Hall; subst. cbn [concat]. by destruct ps'.
Qed.

Lemma closeLast_nonempty closing ws : ws <> [] -> closeLast closing ws <> [].
Proof. destruct ws as [| w [| w' ws]]; done. Qed.

Lemma Join_closeLast closing ws :
  ws <> [] ->
  Join (closeLast closing ws) " "
  = (Join ws " " ++ String closing "")%string.
Proof.
  intros Hne. induction ws as [| w ws IH]; [done |].
  destruct ws as [| w' ws]; [done |].
  change (closeLast closing (w :: w' :: ws))
    with (w :: closeLast closing (w' :: ws)).
  pose proof (closeLast_nonempty closing (w' :: ws)) as Hcl.
  destruct (closeLast closing (w' :: ws)) as [| p ps] eqn:E;
    [by exfalso; apply Hcl |].
  change (Join (w :: p :: ps) " ") with (w ++ " " ++ Join (p :: ps) " ")%string.
  rewrite IH by done.
  change (Join (w :: w' :: ws) " ")
    with (w ++ " " ++ Join (w' :: ws) " ")%string.
  by rewrite !string_app_assoc.
Qed.

(** A well-formed field is written as its pieces joined by spaces. *)
Lemma render_pieces f :
  wellFormed f -> render f = Join (pieces f) " ".
Proof.
  destruct f as [w | q ws]; [done |]. intros (Hq & Hne & _).
  cbn [render pieces]. unfold decorate.
  pose proof (closeLast_nonempty (testOpenQuot q) ws Hne) as Hcl.
  pose proof (Join_closeLast (testOpenQuot q) ws Hne) as HJ.
  destruct (closeLast (testOpenQuot q) ws) as [| p ps]; [done |].
  by rewrite Join_cons_head, HJ.
Qed.

Lemma closeLast_no_space closing ws :
  Ascii.eqb closing " " = false ->
  Forall (fun w => hasByte " " w = false) ws ->
  Forall (fun w => hasByte " " w = false) (closeLast closing ws).
Proof.
  intros Hc Hall. induction Hall as [| w ws Hw Hall IH]; [done |].
  destruct ws as [| w' ws].
  - constructor; [| done]. rewrite hasByte_app, Hw. simpl.
    by rewrite Hc.
  - by constructor.
Qed.

Lemma pieces_no_space f :
  wellFormed f ->
  pieces f <> [] /\ Forall (fun p => hasByte " " p = false) (pieces f).
Proof.
  destruct f as [w | q ws].
  - intros [[_ Hw] _]. split; [done |]. by constructor.
  - intros (Hq & Hne & Hall). cbn [pieces]. unfold decorate.
    destruct (opening_facts q Hq) as (_ & _ & Hqs & Hcs).
    pose proof (closeLast_nonempty (testOpenQuot q) ws Hne) as Hcl.
    assert (Hsp : Forall (fun w => hasByte " " w = false)
                    (closeLast (testOpenQuot q) ws)).
    { apply closeLast_no_space; [done |].
      eapply Forall_impl; [exact Hall |]. by intros w ([_ ?] & _). }
    destruct (closeLast (testOpenQuot q) ws) as [| p ps]; [done |].
    split; [done |]. inversion Hsp; subst.
    constructor; [| done]. simpl. by rewrite Hqs.
Qed.

(** The tokens of a line written from well-formed fields. *)
Lemma tokenize_of_fields (fields : list field) :
  Forall wellFormed fields ->
  (length fields <= 10)%nat ->
  tokenize (Join (render <$> fields) " ")
  = Return (inl (pad10 (value <$> fields))).
Proof.
  intros Hall Hlen. unfold tokenize.
  destruct fields as [| f fields]; [done |].
  assert (Hline : Join (render <$> f :: fields) " "
                  = Join (concat (pieces <$> f :: fields)) " ").
  { rewrite <- Join_concat.
    - f_equal. rewrite <- list_fmap_compose.
      apply Forall_fmap_ext_1. eapply Forall_impl; [exact Hall |].
      intros x Hx. by apply render_pieces.
    - apply Forall_fmap. eapply Forall_impl; [exact Hall |].
      intros x Hx. by apply pieces_no_space. }
  rewrite Hline, Split_Join.
  - change initialTokState with (stateOf []).
    by rewrite tokenizeItems_fields.
  - inversion Hall as [| ? ? Hf _]; subst.
    destruct (pieces_no_space f Hf) as [Hne _].
    cbn [fmap list_fmap concat]. by destruct (pieces f).
  - apply Forall_concat, Forall_fmap.
    eapply Forall_impl; [exact Hall |].
    intros x Hx. by apply pieces_no_space.
Qed.

(** X21: the tokenizer reads back what a line is written from: the line
    of at most ten well-formed fields, each a bare word or words between
    quotes or brackets, joined by single spaces, tokenizes to the fields'
    values, followed by empty strings up to ten tokens. *)
Theorem tokenize_render (fields : list field) :
  Forall wellFormed fields ->
  (length fields <= 10)%nat ->
  tokenize (Join (render <$> fields) " ")
  = Return (inl (pad10 (value <$> fields))).
Proof. apply tokenize_of_fields. Qed.

End TokenizerFacts.

Section TokenizerExamples.

Import Strings Worklog Accesslog MoreExamples.

Lemma tokenize_bare_pieces_witness :
  tokenize "a  b c d e f g h i j k l"
  = Return (inl ["a"; "b"; "c"; "d"; "e"; "f"; "g"; "h"; "i"; "j"]%string).
Proof.
  apply (tokenize_bare_pieces "a  b c d e f g h i j k l").
  set (ws := filter _ _). vm_compute in ws. subst ws. well_formed.
Defined.

Lemma tokenize_render_witness :
  tokenize (Join (render <$> exampleFields) " ")
  = Return
      (inl [ "195.113.53.123"; "-"; "johndoe"; "16/Sep/2019:08:24:05 +0200";
             "GET /ske/css/images/ui-bg.png HTTP/2.0"; "200"; "332";
             "https://www.korpus.cz/ske/css/jquery-ui.min.css";
             "Mozilla/5.0 (X11; Linux x86_64) Safari/537.36";
             "rt=0.012" ]%string).
Proof.
  apply (tokenize_render exampleFields).
  - unfold exampleFields. well_formed.
  - vm_compute. lia.
Defined.

(** A quoted field behind ten tokens is an error, where a bare piece
    would be dropped. *)
Example tokenize_quoted_eleventh :
  tokenize ("a b c d e f g h i j [k]")
  = Return (inr (mkTokenError 10 10)).
Proof. reflexivity. Qed.

End TokenizerExamples.

(** ** Users and time zones *)

Section ConversionFacts.

Import Strings Strconv Worklog Conversion.

(** The loop of [UserBelongsToList] decides membership. *)
Lemma UserBelongsToList_reflect (userID : Z) (anonymousUsers : list Z) :
  reflect (userID ∈ anonymousUsers)
    (UserBelongsToList userID anonymousUsers).
Proof.
  induction anonymousUsers as [| v rest IH]; simpl.
  - constructor. by intros ?%elem_of_nil.
  - destruct (Z.eqb_spec v userID) as [-> | Hne].
    + constructor. apply list_elem_of_here.
    + destruct IH as [Hin | Hout]; constructor.
      * by apply list_elem_of_further.
      * intros [-> | H]%elem_of_cons; [done | by apply Hout].
Qed.

(** X22: [UserBelongsToList] answers true exactly for the members of the
    list, wherever and however often they occur in it: the answer for two
    lists put together is the disjunction of the answers for each. *)
Theorem UserBelongsToList_elem_of (userID : Z) (users users' : list Z) :
  (UserBelongsToList userID users = true <-> userID ∈ users)
  /\ UserBelongsToList userID (users ++ users')
     = UserBelongsToList userID users || UserBelongsToList userID users'.
Proof.
  split.
  - by destruct (UserBelongsToList_reflect userID users).
  - destruct (UserBelongsToList_reflect userID (users ++ users'))
      as [Hin | Hout];
      destruct (UserBelongsToList_reflect userID users) as [H1 | H1];
      destruct (UserBelongsToList_reflect userID users') as [H2 | H2];
      try done; set_solver.
Qed.

(** Splitting and joining again gives the string back. *)
Lemma Join_Split s c : Join (Split s c) (String c "") = s.
Proof.
  induction s as [| d s IH]; [done |]. simpl.
  destruct (Ascii.eqb_spec d c) as [-> | Hne].
  - pose proof (Split_nonempty s c) as Hn.
    destruct (Split s c) as [| p ps]; [done |].
    change (Join ("" :: p :: ps) (String c ""))
      with ("" ++ String c "" ++ Join (p :: ps) (String c ""))%string.
    by rewrite IH.
  - pose proof (Split_nonempty s c) as Hn.
    destruct (Split s c) as [| p ps]; [done |].
    rewrite Join_cons_head. by rewrite IH.
Qed.

Lemma Split_pieces s c : Forall (fun p => hasByte c p = false) (Split s c).
Proof.
  induction s as [| d s IH]; simpl; [by constructor |].
  destruct (Ascii.eqb d c) eqn:E; [by constructor |].
  destruct (Split s c) as [| p ps]; inversion IH; subst.
  - constructor; [| done]. simpl. by rewrite E.
  - constructor; [| done]. simpl. by rewrite E.
Qed.

Lemma Split_two s c a b :
  Split s c = [a; b] <->
  s = (a ++ String c b)%string /\ hasByte c a = false /\ hasByte c b = false.
Proof.
  split.
  - intros H. pose proof (Join_Split s c) as HJ.
    pose proof (Split_pieces s c) as HP. rewrite H in HJ, HP.
    apply Forall_cons in HP as [Ha HP].
    apply Forall_cons in HP as [Hb _].
    split; [by rewrite <- HJ | done].
  - intros (-> & Ha & Hb). by rewrite Split_app, Split_none.
Qed.

Lemma isDigit_not_colon c : isDigit c = true -> Ascii.eqb c ":" = false.
Proof.
  destruct c as [[] [] [] [] [] [] [] []]; vm_compute; congruence.
Qed.

Lemma digitsFrom_no_colon s acc n :
  digitsFrom acc s = Some n -> hasByte ":" s = false.
Proof.
  revert acc. induction s as [| c s IH]; intros acc; simpl; [done |].
  destruct (isDigit c) eqn:E; [| discriminate].
  intros H. by rewrite (isDigit_not_colon _ E), (IH _ H).
Qed.

(** What [Atoi] converts holds no colon. *)
Lemma Atoi_no_colon s v : Atoi s = inl v -> hasByte ":" s = false.
Proof.
  unfold Atoi. destruct s as [| c s]; [done |].
  destruct (Ascii.eqb_spec c "-") as [-> | Hm];
    [| destruct (Ascii.eqb_spec c "+") as [-> | Hp]].
  - destruct s as [| d s]; [done |].
    destruct (digitsFrom 0 (String d s)) as [n |] eqn:E; [| done].
    intros _. change (hasByte ":" (String d s) = false).
    by eapply digitsFrom_no_colon.
  - destruct s as [| d s]; [done |].
    destruct (digitsFrom 0 (String d s)) as [n |] eqn:E; [| done].
    intros _. change (hasByte ":" (String d s) = false).
    by eapply digitsFrom_no_colon.
  - destruct (digitsFrom 0 (String c s)) as [n |] eqn:E; [| done].
    intros _. by eapply digitsFrom_no_colon.
Qed.

(** X23: [TimezoneToInt] answers a value exactly for a sign, [+] or [-],
    followed by two texts [Atoi] converts with a colon between them; the
    value is the signed number of minutes, sixty for each unit of the
    first number plus the second one, in [int] arithmetic. *)
Theorem TimezoneToInt_value (tz : string) (v : Z) :
  TimezoneToInt tz = Return (inl v)
  <-> exists c a b v1 v2,
        tz = String c (a ++ String ":" b)
        /\ (c = "+"%char \/ c = "-"%char)
        /\ Atoi a = inl v1
        /\ Atoi b = inl v2
        /\ v = Time.wrap64
                 ((if Ascii.eqb c "-" then -1 else 1)
                  * Time.wrap64 (Time.wrap64 (60 * v1) + v2)).
Proof.
  unfold TimezoneToInt. split.
  - destruct tz as [| c rest]; [discriminate |]. rewrite firstByte_cons.
    cbn [String.length].
    replace (S (String.length rest) - 1)%nat with (String.length rest)
      by lia.
    change (String.substring 1 (String.length rest) (String c rest))
      with (String.substring 0 (String.length rest) rest).
    rewrite substring_0_all.
    assert (Hsign : (if Ascii.eqb c "-" then Some (-1)
                     else if negb (Ascii.eqb c "+") then None else Some 1)
                    <> None -> c = "+"%char \/ c = "-"%char).
    { destruct (Ascii.eqb_spec c "-"); [auto |].
      destruct (Ascii.eqb_spec c "+"); [auto | done]. }
    destruct (Split rest ":") as [| a [| b [| x xs]]] eqn:Hsplit;
      try (destruct (if Ascii.eqb c "-" then _ else _); discriminate).
    apply Split_two in Hsplit as (-> & _ & _).
    destruct (Atoi a) as [v1 |] eqn:Ha;
      [| destruct (if Ascii.eqb c "-" then _ else _); discriminate].
    destruct (Atoi b) as [v2 |] eqn:Hb;
      [| destruct (if Ascii.eqb c "-" then _ else _); discriminate].
    intros H. exists c, a, b, v1, v2.
    repeat split; try done.
    + apply Hsign. by destruct (if Ascii.eqb c "-" then _ else _).
    + destruct (Ascii.eqb c "-"); [congruence |].
      destruct (Ascii.eqb c "+"); simpl in H; congruence.
  - intros (c & a & b & v1 & v2 & -> & Hc & Ha & Hb & ->).
    rewrite firstByte_cons. cbn [String.length].
    replace (S (String.length (a ++ String ":" b)) - 1)%nat
      with (String.length (a ++ String ":" b)) by lia.
    change (String.substring 1 (String.length (a ++ String ":" b))
              (String c (a ++ String ":" b)))
      with (String.substring 0 (String.length (a ++ String ":" b))
              (a ++ String ":" b)).
    rewrite substring_0_all.
    rewrite (proj2 (Split_two _ ":" a b)); [rewrite Ha, Hb |].
    + by destruct Hc as [-> | ->].
    + repeat split; by eapply Atoi_no_colon.
Qed.

(** The offsets of two time zones, and what is no time zone. *)
Example TimezoneToInt_examples :
  TimezoneToInt "+02:00" = Return (inl 120)
  /\ TimezoneToInt "-05:30" = Return (inl (-330))
  /\ TimezoneToInt "02:00" = Return (inr (CannotParse "02:00"))
  /\ TimezoneToInt "+0200" = Return (inr (CannotParse "+0200"))
  /\ TimezoneToInt "" = Panic "index out of range [0]".
Proof. repeat split. Qed.

End ConversionFacts.

(** ** The treqapi transformer *)

Section TreqapiFacts.

Import Strconv Worklog Conversion Treqapi.

Variable TimeFields : Type.
Variable SetTime : Time.Time -> Z -> TimeFields.
Variable GenerateDeterministicID : OutputRecord TimeFields -> string.

(** X24: on a record of its own package, [Transform] never panics.  It
    answers an output record exactly when the user ID is the text "-" or a
    text [Atoi] converts, and an error otherwise.  The output record
    carries the user ID as it was written, and it is anonymous exactly
    when the user ID is "-", or converts to -1, or converts to a number on
    the transformer's list of anonymous users. *)
Theorem Transform_user_id (t : Transformer) (r : InputRecord)
    (tzShiftMin : Z) :
  match Transform TimeFields SetTime GenerateDeterministicID t
          (TreqapiRecord r) tzShiftMin with
  | Return (inl out) =>
      (UserID r = "-"%string \/ exists id, Atoi (UserID r) = inl id)
      /\ OutUserID _ out = UserID r
      /\ (IsAnonymous _ out = true
          <-> UserID r = "-"%string
              \/ exists id, Atoi (UserID r) = inl id
                            /\ (id = -1 \/ id ∈ AnonymousUsers t))
  | Return (inr _) =>
      UserID r <> "-"%string /\ forall id, Atoi (UserID r) <> inl id
  | Panic _ => False
  end.
Proof.
  unfold Transform. case_bool_decide as Hdash.
  - destruct (Atoi (UserID r)) as [id | err] eqn:E; [| by split].
    cbn [withID withTime IsAnonymous OutUserID].
    split; [right; by exists id |]. split; [done |].
    rewrite orb_true_iff, Z.eqb_eq.
    destruct (UserBelongsToList_reflect id (AnonymousUsers t)) as [Hin | Hout].
    + split; [intros _ | auto]. right. exists id. auto.
    + split.
      * intros [-> | ?]; [| done]. right. exists (-1). auto.
      * intros [? | (id' & [= <-] & [-> | ?])]; [done | auto | done].
  - cbn [withID withTime IsAnonymous OutUserID].
    split; [by left |]. split; [done |]. split; auto.
Qed.

End TreqapiFacts.

(** ** The choice of log files *)

Section BatchFacts.

Import Batch.

Variable Error : Type.
Variable FindStringSubmatch : string -> option (string * string).
Variable parseUnix : string -> Z + Error.
Variable openFirstLine : string -> string + Error.
Variable GetFileMtime : string -> Z.
Variable IsFile : string -> bool.
Variable ReadDir : string -> list string + Error.
Variable pathJoin : string -> string -> string.

Lemma importTimeFromLine_no_error lineStr tzShiftMin :
  snd (importTimeFromLine Error FindStringSubmatch parseUnix lineStr
         tzShiftMin) = None.
Proof.
  unfold importTimeFromLine.
  destruct (FindStringSubmatch lineStr) as [[whole group] |]; [| done].
  by destruct (parseUnix group).
Qed.

(** X25: [LogFileMatches] reports an error only when the file cannot be
    opened.  A first line without a date is no error: the start time is
    then -1, so that with strict matching the file does not match any
    [minTimestamp] above -1, and without it the modification time of the
    file decides. *)
Theorem LogFileMatches_errors filePath minTimestamp strictMatch tzShiftMin :
  (forall err,
      snd (LogFileMatches Error FindStringSubmatch parseUnix openFirstLine
             GetFileMtime filePath minTimestamp strictMatch tzShiftMin)
      = Some err
      <-> openFirstLine filePath = inr err)
  /\ (forall line,
        openFirstLine filePath = inl line ->
        FindStringSubmatch line = None ->
        -1 < minTimestamp ->
        LogFileMatches Error FindStringSubmatch parseUnix openFirstLine
          GetFileMtime filePath minTimestamp strictMatch tzShiftMin
        = (negb strictMatch && (GetFileMtime filePath >=? minTimestamp),
           None)).
Proof.
  unfold LogFileMatches. split.
  - intros err. destruct (openFirstLine filePath) as [line | e].
    + pose proof (importTimeFromLine_no_error line tzShiftMin) as H.
      destruct (importTimeFromLine _ _ _ _ _) as [t e]. simpl in H.
      subst e. simpl. split; discriminate.
    + simpl. split; congruence.
  - intros line -> Hnone Hmin. unfold importTimeFromLine. rewrite Hnone.
    replace (-1 <? minTimestamp) with true by (symmetry; lia).
    destruct strictMatch; simpl; [| done].
    f_equal. rewrite Z.geb_leb. apply Z.leb_gt. lia.
Qed.

(** X26: strict matching accepts no file that matching by modification
    time would reject: a file that matches with [strictMatch] matches
    without it. *)
Theorem LogFileMatches_strict_implies filePath minTimestamp tzShiftMin :
  LogFileMatches Error FindStringSubmatch parseUnix openFirstLine
    GetFileMtime filePath minTimestamp true tzShiftMin = (true, None) ->
  LogFileMatches Error FindStringSubmatch parseUnix openFirstLine
    GetFileMtime filePath minTimestamp false tzShiftMin = (true, None).
Proof.
  unfold LogFileMatches.
  destruct (openFirstLine filePath) as [line | e]; [| done].
  destruct (importTimeFromLine _ _ _ _ _) as [t [e |]]; [done |].
  rewrite !andb_false_r, andb_true_r.
  intros [= H]. rewrite Z.geb_leb in H. apply Z.leb_le in H.
  replace (t <? minTimestamp) with false by (symmetry; lia).
  f_equal. rewrite Z.geb_leb. by apply Z.leb_le.
Qed.

(** One turn of the loop stores the path when it is selected. *)
Lemma getFilesStep_selected dirPath minTimestamp strictMatch tzShiftMin
    (ans : list string) (i : nat) (item : string) :
  getFilesStep Error FindStringSubmatch parseUnix openFirstLine
    GetFileMtime IsFile pathJoin dirPath minTimestamp strictMatch
    tzShiftMin (ans, i) item
  = if selected Error FindStringSubmatch parseUnix openFirstLine
         GetFileMtime IsFile minTimestamp strictMatch tzShiftMin
         (pathJoin dirPath item)
    then (<[i := pathJoin dirPath item]> ans, S i)
    else (ans, i).
Proof.
  unfold getFilesStep, selected.
  destruct (IsFile (pathJoin dirPath item)); [| done].
  by destruct (LogFileMatches _ _ _ _ _ _ _ _ _) as [[] [e |]].
Qed.

(** The loop of [getFilesInDir] keeps the selected paths, in order, in
    the front of the slice. *)
Lemma getFilesStep_fold dirPath minTimestamp strictMatch tzShiftMin
    (names : list string) (ans : list string) (i : nat) :
  (i + length names <= length ans)%nat ->
  let result :=
    fold_left
      (getFilesStep Error FindStringSubmatch parseUnix openFirstLine
         GetFileMtime IsFile pathJoin dirPath minTimestamp strictMatch
         tzShiftMin)
      names (ans, i) in
  take (snd result) (fst result)
  = take i ans
    ++ List.filter
         (selected Error FindStringSubmatch parseUnix openFirstLine
            GetFileMtime IsFile minTimestamp strictMatch tzShiftMin)
         (pathJoin dirPath <$> names).
Proof.
  cbv zeta. revert ans i.
  induction names as [| item names IH]; intros ans i Hlen.
  - simpl. by rewrite app_nil_r.
  - cbn [fold_left fmap list_fmap List.filter length] in *.
    rewrite getFilesStep_selected.
    destruct (selected _ _ _ _ _ _ _ _ _ _); [| apply IH; lia].
    rewrite IH by (rewrite length_insert; lia).
    rewrite (take_S_r _ _ (pathJoin dirPath item)).
    + rewrite take_insert_ge by lia. by rewrite <- app_assoc.
    + apply list_lookup_insert_eq. lia.
Qed.

(** X27: [getFilesInDir] answers exactly the paths of the directory's
    entries that are files and match, in the order of the directory, and
    nothing when the directory cannot be read: writing the matches to the
    front of the slice and cutting it behind them filters the entries. *)
Theorem getFilesInDir_filter dirPath minTimestamp strictMatch tzShiftMin :
  getFilesInDir Error FindStringSubmatch parseUnix openFirstLine
    GetFileMtime IsFile ReadDir pathJoin dirPath minTimestamp strictMatch
    tzShiftMin
  = match ReadDir dirPath with
    | inl names =>
        List.filter
          (selected Error FindStringSubmatch parseUnix openFirstLine
             GetFileMtime IsFile minTimestamp strictMatch tzShiftMin)
          (pathJoin dirPath <$> names)
    | inr _ => []
    end.
Proof.
  unfold getFilesInDir. destruct (ReadDir dirPath) as [names | e]; [| done].
  pose proof (getFilesStep_fold dirPath minTimestamp strictMatch tzShiftMin
                names (replicate (length names) EmptyString) 0) as H.
  cbv zeta in H. destruct (fold_left _ _ _) as [ans i].
  simpl in H. rewrite H; [done |]. by rewrite length_replicate.
Qed.

End BatchFacts.

(** ** The line parser *)

Section ParseLineFacts.

Import Strings Worklog Accesslog.

Variable Float : Type.
Variable minusOne : Float.
Variable FloatError : Type.
Variable ParseFloat : string -> Float + FloatError.
Variable URL : Type.
Variable URLPath : URL -> string.
Variable RawQuery : URL -> string.
Variable URLError : Type.
Variable urlParse : string -> URL + URLError.
Variable Values : Type.
Variable ParseQuery : string -> Values + URLError.

Lemma Index_rt s :
  (Index s "rt=" =? 0) = true <-> exists rest, s = ("rt=" ++ rest)%string.
Proof.
  unfold Index. split.
  - destruct s as [| c s]; [done |]. cbn [String.index].
    destruct (String.prefix "rt=" (String c s)) eqn:Hp.
    + intros _. apply String.prefix_correct in Hp.
      destruct s as [| d [| e s]]; [done | done |].
      cbn [String.length String.substring] in Hp.
      injection Hp as -> -> -> _. by exists s.
    + by destruct (String.index 0 "rt=" s).
  - intros [rest ->]. by destruct rest.
Qed.

Lemma TrimRight_snoc w c cutset :
  hasByte c cutset = true ->
  TrimRight (w ++ String c "") cutset = TrimRight w cutset.
Proof.
  intros Hc. induction w as [| d w IH].
  - simpl. by rewrite Hc.
  - rewrite string_app_cons. cbn [TrimRight]. by rewrite IH.
Qed.

Lemma TrimLeft_snoc w c cutset :
  hasByte c cutset = true ->
  TrimRight (TrimLeft (w ++ String c "") cutset) cutset
  = TrimRight (TrimLeft w cutset) cutset.
Proof.
  intros Hc. induction w as [| d w IH].
  - simpl. by rewrite Hc.
  - rewrite string_app_cons. cbn [TrimLeft].
    destruct (hasByte d cutset); [done |].
    by rewrite <- string_app_cons, TrimRight_snoc.
Qed.

(** A pair of quotes around a text is trimmed away with the quotes of
    the text itself. *)
Lemma Trim_quoted w :
  Trim (String dquote (w ++ String dquote "")) (String dquote "")
  = Trim w (String dquote "").
Proof.
  assert (H : hasByte dquote (String dquote "") = true) by reflexivity.
  unfold Trim. cbn [TrimLeft]. rewrite H. by apply TrimLeft_snoc.
Qed.

Lemma getProcTime_rt rest :
  getProcTime Float minusOne FloatError ParseFloat ("rt=" ++ rest)
  = match ParseFloat (Trim rest (String dquote "")) with
    | inl pt => (pt, None)
    | inr err =>
        (minusOne, Some (ProcTimeNumber FloatError ("rt=" ++ rest) err))
    end.
Proof.
  unfold getProcTime.
  replace (Index ("rt=" ++ rest) "rt=" =? 0) with true
    by (symmetry; apply Index_rt; by exists rest).
  change (("rt=" ++ rest)%string =? "")%string with false. cbv iota.
  replace (String.substring 3 (String.length ("rt=" ++ rest) - 3)
             ("rt=" ++ rest))
    with rest; [done |].
  change (String.length ("rt=" ++ rest)) with (3 + String.length rest)%nat.
  replace (3 + String.length rest - 3)%nat with (String.length rest)
    by lia.
  change (String.substring 3 (String.length rest) ("rt=" ++ rest))
    with (String.substring 0 (String.length rest) rest).
  by rewrite substring_0_all.
Qed.

Lemma getProcTime_failure procTimeExpr :
  snd (getProcTime Float minusOne FloatError ParseFloat procTimeExpr)
  <> None ->
  fst (getProcTime Float minusOne FloatError ParseFloat procTimeExpr)
  = minusOne.
Proof.
  unfold getProcTime.
  destruct (procTimeExpr =? "")%string; [done |].
  destruct (Index procTimeExpr "rt=" =? 0); [| done].
  by destruct (ParseFloat _).
Qed.

(** X28: [getProcTime] accepts the empty text, with -1 for the time, and
    the texts that start with rt= and go on with what [ParseFloat]
    reads once the quotes at both ends are trimmed; on every other text
    it fails, again with -1.  A number written between a pair of quotes
    is read as the number without them. *)
Theorem getProcTime_accepts (procTimeExpr : string) :
  (snd (getProcTime Float minusOne FloatError ParseFloat procTimeExpr)
   = None
   <-> procTimeExpr = EmptyString
       \/ exists rest pt,
            procTimeExpr = ("rt=" ++ rest)%string
            /\ ParseFloat (Trim rest (String dquote "")) = inl pt)
  /\ (snd (getProcTime Float minusOne FloatError ParseFloat procTimeExpr)
      <> None ->
      fst (getProcTime Float minusOne FloatError ParseFloat procTimeExpr)
      = minusOne)
  /\ (forall number,
        fst (getProcTime Float minusOne FloatError ParseFloat
               ("rt=" ++ String dquote (number ++ String dquote "")))
        = fst (getProcTime Float minusOne FloatError ParseFloat
                 ("rt=" ++ number))).
Proof.
  split; [| split].
  - split.
    + unfold getProcTime.
      destruct (String.eqb_spec procTimeExpr ""); [by left |].
      destruct (Index procTimeExpr "rt=" =? 0) eqn:Hrt; [| done].
      apply Index_rt in Hrt as [rest ->].
      change (String.length ("rt=" ++ rest))
        with (3 + String.length rest)%nat.
      replace (3 + String.length rest - 3)%nat with (String.length rest)
        by lia.
      change (String.substring 3 (String.length rest) ("rt=" ++ rest))
        with (String.substring 0 (String.length rest) rest).
      rewrite substring_0_all.
      destruct (ParseFloat _) as [pt | err] eqn:Hpt; [| done].
      intros _. right. by exists rest, pt.
    + intros [-> | (rest & pt & -> & Hpt)]; [done |].
      by rewrite getProcTime_rt, Hpt.
  - apply getProcTime_failure.
  - intros number. rewrite !getProcTime_rt, Trim_quoted.
    by destruct (ParseFloat _).
Qed.

Lemma tokenAt_ten tokens i :
  length tokens = 10%nat -> (i < 10)%nat ->
  exists token, tokenAt tokens i = Return token.
Proof.
  intros Hlen Hi. unfold tokenAt.
  destruct (lookup_lt_is_Some_2 tokens i) as [token ->]; [lia |].
  by exists token.
Qed.

(** X29: [ParseLine] always returns, for no token it reads is out of
    the ten.  It returns no record exactly together with a line parsing
    error carrying the number of the line; with a record it returns
    either no error, or the error of [getProcTime] as it is, the time of
    the record being -1 then. *)
Theorem ParseLine_returns (s : string) (lineNum : Z) :
  exists parsed err,
    ParseLine Float minusOne FloatError ParseFloat URL URLPath RawQuery
      URLError urlParse Values ParseQuery s lineNum
    = Return (parsed, err)
    /\ (parsed = None ->
        exists cause,
          err = Some (LineParsingError FloatError URLError lineNum cause))
    /\ (forall rec,
          parsed = Some rec ->
          err = None
          \/ exists failure,
               err = Some (ProcTimeFailed FloatError URLError failure)
               /\ ProcTime Float Values rec = minusOne).
Proof.
  unfold ParseLine.
  destruct (tokenize_ten s) as ([tokens | terr] & -> & Hlen);
    cbn [andThen].
  2: { do 2 eexists. split; [done |]. split; [by eexists | done]. }
  specialize (Hlen tokens eq_refl).
  destruct (tokenAt_ten tokens 0 Hlen) as [t0 ->]; [lia |].
  destruct (tokenAt_ten tokens 2 Hlen) as [t2 ->]; [lia |].
  destruct (tokenAt_ten tokens 3 Hlen) as [t3 ->]; [lia |].
  destruct (tokenAt_ten tokens 4 Hlen) as [t4 ->]; [lia |].
  cbn [andThen].
  destruct (parseRequest _ _ _ _) as [[[method version] parsedURL] | cause].
  2: { do 2 eexists. split; [done |]. split; [by eexists | done]. }
  destruct (parseArgs _ _ _ _ _ _ _) as [[path args] | cause].
  2: { do 2 eexists. split; [done |]. split; [by eexists | done]. }
  destruct (tokenAt_ten tokens 7 Hlen) as [t7 ->]; [lia |].
  destruct (tokenAt_ten tokens 8 Hlen) as [t8 ->]; [lia |].
  destruct (tokenAt_ten tokens 9 Hlen) as [t9 ->]; [lia |].
  cbn [andThen].
  pose proof (getProcTime_failure t9) as Hfail.
  destruct (getProcTime _ _ _ _ t9) as [procTime [failure |]];
    cbn [fst snd] in Hfail.
  - do 2 eexists. split; [done |]. split; [done |].
    intros rec [= <-]. right. exists failure. split; [done |].
    cbn [ProcTime]. by apply Hfail.
  - do 2 eexists. split; [done |]. split; [done |]. by left.
Qed.

(** X30: from a line written as ten well-formed fields joined by single
    spaces, whose fifth field is a method, a target and a version between
    quotes, [ParseLine] reads the address from the first field, the user
    from the third, the time from the fourth, the referrer and the agent
    from the eighth and the ninth, the path and the arguments from the
    parsed target and the time taken from the tenth; the second, sixth
    and seventh field are not read. *)
Theorem ParseLine_reads_fields
    (ip ident user time status size referrer agent procTime : field)
    (method target version : string) (parsedURL : URL) (args : Values)
    (lineNum : Z) :
  let request := Quoted dquote [method; target; version] in
  let fields :=
    [ip; ident; user; time; request; status; size; referrer; agent;
     procTime] in
  Forall wellFormed fields ->
  urlParse target = inl parsedURL ->
  ParseQuery (RawQuery parsedURL) = inl args ->
  ParseLine Float minusOne FloatError ParseFloat URL URLPath RawQuery
    URLError urlParse Values ParseQuery
    (Join (render <$> fields) " ") lineNum
  = Return
      (Some
         (mkParsedAccessLog Float Values (value ip) (value user)
            (value time) method version (URLPath parsedURL) (Some args)
            (value referrer) (value agent)
            (fst (getProcTime Float minusOne FloatError ParseFloat
                    (value procTime)))),
       ProcTimeFailed FloatError URLError
       <$> snd (getProcTime Float minusOne FloatError ParseFloat
                  (value procTime))).
Proof.
  intros request fields Hall Hurl Hquery. unfold ParseLine.
  rewrite tokenize_of_fields by (done || (cbn [length]; lia)).
  change (pad10 (value <$> fields))
    with [value ip; value ident; value user; value time; value request;
          value status; value size; value referrer; value agent;
          value procTime].
  cbn [andThen tokenAt lookup list_lookup].
  assert (Hsplit : Split (value request) " " = [method; target; version]).
  { assert (Hreq : wellFormed request).
    { by do 4 apply Forall_cons in Hall as [_ Hall];
         apply Forall_cons in Hall as [? _]. }
    destruct Hreq as (_ & _ & Hws). cbn [value request].
    apply (Split_Join [method; target; version] " "); [done |].
    eapply Forall_impl; [exact Hws |]. by intros w [[_ ?] _]. }
  rewrite Hsplit. cbn [parseRequest]. rewrite Hurl.
  cbn [parseArgs]. rewrite Hquery.
  by destruct (getProcTime _ _ _ _ _) as [pt [e |]].
Qed.

End ParseLineFacts.

Section ParseLineExamples.

Import Strings Worklog Accesslog MoreExamples.

Lemma ParseLine_reads_fields_witness :
  ParseLine Z (-1) unit
    (fun s => if String.eqb s "0.012" then inl 12 else inr tt)
    string (fun u => u) (fun _ => EmptyString) unit inl
    (list (string * string)) (fun _ => inl [])
    (Join (render <$> exampleFields) " ") 7
  = Return
      (Some
         (mkParsedAccessLog Z (list (string * string)) "195.113.53.123"
            "johndoe" "16/Sep/2019:08:24:05 +0200" "GET" "HTTP/2.0"
            "/ske/css/images/ui-bg.png" (Some []) 
            "https://www.korpus.cz/ske/css/jquery-ui.min.css"
            "Mozilla/5.0 (X11; Linux x86_64) Safari/537.36" 12),
       None).
Proof.
  apply (ParseLine_reads_fields Z (-1) unit
           (fun s => if String.eqb s "0.012" then inl 12 else inr tt)
           string (fun u => u) (fun _ => EmptyString) unit inl
           (list (string * string)) (fun _ => inl [])
           (Plain "195.113.53.123") (Plain "-") (Plain "johndoe")
           (Quoted "[" ["16/Sep/2019:08:24:05"; "+0200"]%string)
           (Plain "200") (Plain "332")
           (Quoted dquote
              ["https://www.korpus.cz/ske/css/jquery-ui.min.css"%string])
           (Quoted dquote
              ["Mozilla/5.0"; "(X11;"; "Linux"; "x86_64)";
               "Safari/537.36"]%string)
           (Plain "rt=0.012")
           "GET" "/ske/css/images/ui-bg.png" "HTTP/2.0"
           "/ske/css/images/ui-bg.png" [] 7).
  - well_formed.
  - reflexivity.
  - reflexivity.
Defined.

End ParseLineExamples.

Section BatchExamples.

Import Batch.

(** A file whose first line is dated, read with a shift of two hours. *)
Lemma LogFileMatches_strict_implies_witness :
  LogFileMatches string
    (fun _ => Some ("2019-09-16 08:24:05,120", "2019-09-16 08:24:05"))
    (fun _ => inl 1568622245) (fun _ => inl "2019-09-16 08:24:05,120 x")
    (fun _ => 0) "/var/log/app.log" 1568600000 false 120
  = (true, None).
Proof.
  apply (LogFileMatches_strict_implies string
           (fun _ => Some ("2019-09-16 08:24:05,120", "2019-09-16 08:24:05"))
           (fun _ => inl 1568622245)
           (fun _ => inl "2019-09-16 08:24:05,120 x")
           (fun _ => 0) "/var/log/app.log" 1568600000 120).
  vm_compute. reflexivity.
Defined.

(** A file whose first line has no date, changed after the time asked
    for. *)
Lemma LogFileMatches_errors_witness :
  LogFileMatches string (fun _ => None) (fun _ => inl 0)
    (fun _ => inl "Traceback (most recent call last):")
    (fun _ => 1568622245) "/var/log/app.log" 1568600000 false 0
  = (true, None).
Proof.
  exact (proj2
           (LogFileMatches_errors string (fun _ => None) (fun _ => inl 0)
              (fun _ => inl "Traceback (most recent call last):")
              (fun _ => 1568622245) "/var/log/app.log" 1568600000 false 0)
           "Traceback (most recent call last):" eq_refl eq_refl eq_refl).
Defined.

End BatchExamples.
